(** * asartool: a shallow embedding of the ASAR archive codec

    The development follows [asartool.py]: the helper [round_up], the
    class [Asar] with [open], [compress], [list_files], [extract_file],
    [get_file_info] and [extract], and the library calls they rely on
    ([struct.pack], [json.dumps], [json.loads], [os.path.join]).

    Python values are modelled as follows.
    - [int] is [Z] (unbounded); a [struct] field is a [Z] checked against
      the 32-bit range, as [struct.pack] does.
    - [str] is a list of Unicode code points ([N]).
    - [bytes] is [list byte].
    - a [dict] is an association list in insertion order; keys are unique.
    - an exception is a value of [exn], returned through [result].
    - floating point numbers are outside the model: the decoder stops with
      [FloatUnsupported] where Python would build a [float]. *)

From Stdlib Require Import Strings.String Strings.Ascii Strings.Byte.
From Stdlib Require Import List ZArith NArith Lia Bool.
From Stdlib Require Import Permutation Sorted.
Import ListNotations.

Local Open Scope Z_scope.

(** ** Exceptions and results *)

Inductive exn : Type :=
| FileNotFoundError
| FileExistsError
| PermissionError
| OSError
| KeyError
| TypeError
| ValueError
| StructError
| UnicodeError
| JSONDecodeError
| RecursionError
| FloatUnsupported
| AttributeError
| OpenFailed.

Inductive result (A : Type) : Type :=
| Ok (a : A)
| Raise (e : exn).

Arguments Ok {A} a.
Arguments Raise {A} e.

Definition bind {A B : Type} (r : result A) (k : A -> result B) : result B :=
  match r with
  | Ok a => k a
  | Raise e => Raise e
  end.

Declare Scope result_scope.
Delimit Scope result_scope with result.
Notation "'do' x <- r ; k" := (bind r (fun x => k))
  (at level 10, x pattern, r at level 100, k at level 200) : result_scope.
Local Open Scope result_scope.

Definition is_ok {A : Type} (r : result A) : bool :=
  match r with Ok _ => true | Raise _ => false end.

(** ** Strings and bytes *)

(** A Python [str]: a sequence of code points. *)
Abbreviation char := N (only parsing).
Abbreviation str := (list N) (only parsing).
Abbreviation bytes := (list byte) (only parsing).

(** ASCII literals of the source, as code points. *)
Definition lit (s : String.string) : str :=
  List.map N_of_ascii (String.list_ascii_of_string s).
Arguments lit s%_string.

Fixpoint str_eqb (a b : str) : bool :=
  match a, b with
  | [], [] => true
  | x :: a', y :: b' => N.eqb x y && str_eqb a' b'
  | _, _ => false
  end.

(** Code point order on [str], the order of Python's [<] on strings. *)
Fixpoint str_ltb (a b : str) : bool :=
  match a, b with
  | _, [] => false
  | [], _ :: _ => true
  | x :: a', y :: b' => N.ltb x y || (N.eqb x y && str_ltb a' b')
  end.

Definition str_leb (a b : str) : bool := negb (str_ltb b a).

Fixpoint startswith (s p : str) {struct p} : bool :=
  match p, s with
  | [], _ => true
  | y :: p', x :: s' => N.eqb x y && startswith s' p'
  | _ :: _, [] => false
  end.

(** [p in s] on strings: substring test. *)
Fixpoint str_contains (s p : str) : bool :=
  startswith s p ||
  match s with
  | [] => false
  | _ :: s' => str_contains s' p
  end.

Definition endswith (s p : str) : bool :=
  startswith (rev s) (rev p).

(** [s.replace(a, b)] for single characters [a] and [b]. *)
Definition replace_char (a b : char) (s : str) : str :=
  List.map (fun c => if N.eqb c a then b else c) s.

(** [s.split(sep)] for a single character separator. *)
Fixpoint split_char (sep : char) (s : str) : list str :=
  match s with
  | [] => [[]]
  | c :: s' =>
      if N.eqb c sep then [] :: split_char sep s'
      else match split_char sep s' with
           | [] => [[c]]
           | w :: ws => (c :: w) :: ws
           end
  end.

Definition ch_slash : char := 47%N.
Definition ch_backslash : char := 92%N.
Definition ch_quote : char := 34%N.

(** ** [round_up]

<<
def round_up(i: int, m: int) -> int:
    return (i + m - 1) & ~(m - 1)
>> *)
Definition round_up (i m : Z) : Z :=
  Z.land (i + m - 1) (Z.lnot (m - 1)).

(** The spec's [align4(n) = (n+3) & ~3]. *)
Definition align4 (n : Z) : Z := Z.land (n + 3) (Z.lnot 3).

(** ** [struct.pack('<4I', ...)] and [struct.unpack('<4I', ...)] *)

Definition byte_of_Z (z : Z) : byte :=
  match Byte.of_N (Z.to_N (z mod 256)) with
  | Some b => b
  | None => x00
  end.

Definition Z_of_byte (b : byte) : Z := Z.of_N (Byte.to_N b).

Definition u32_ok (v : Z) : bool := (0 <=? v) && (v <? 2 ^ 32).

(** One little-endian unsigned 32-bit field. *)
Definition le32 (v : Z) : bytes :=
  [ byte_of_Z v;
    byte_of_Z (Z.shiftr v 8);
    byte_of_Z (Z.shiftr v 16);
    byte_of_Z (Z.shiftr v 24) ].

Definition of_le32 (b0 b1 b2 b3 : byte) : Z :=
  Z.lor (Z_of_byte b0)
    (Z.lor (Z.shiftl (Z_of_byte b1) 8)
       (Z.lor (Z.shiftl (Z_of_byte b2) 16) (Z.shiftl (Z_of_byte b3) 24))).

(** [struct.pack('<4I', a, b, c, d)]: raises [struct.error] when a field is
    outside [0, 2^32). *)
Definition pack_4I (a b c d : Z) : result bytes :=
  if u32_ok a && u32_ok b && u32_ok c && u32_ok d
  then Ok (le32 a ++ le32 b ++ le32 c ++ le32 d)
  else Raise StructError.

(** [struct.unpack('<4I', buf)]: raises [struct.error] unless [buf] holds
    exactly 16 bytes. *)
Definition unpack_4I (buf : bytes) : result (Z * Z * Z * Z) :=
  match buf with
  | [a0; a1; a2; a3; b0; b1; b2; b3; c0; c1; c2; c3; d0; d1; d2; d3] =>
      Ok (of_le32 a0 a1 a2 a3, of_le32 b0 b1 b2 b3,
          of_le32 c0 c1 c2 c3, of_le32 d0 d1 d2 d3)
  | _ => Raise StructError
  end.

(** ** JSON values

    The header of an archive is the Python object that [json.loads] returns
    and [json.dumps] accepts: [None], [bool], [int], [str], [list] and
    [dict] with string keys.  A [dict] keeps its insertion order.  Floating
    point numbers are outside the model. *)

Unset Elimination Schemes.
Inductive json : Type :=
| JNull
| JBool (b : bool)
| JInt (z : Z)
| JStr (s : str)
| JList (l : list json)
| JDict (items : list (str * json)).
Set Elimination Schemes.

Section JsonInd.
Variable P : json -> Prop.
Hypothesis HNull : P JNull.
Hypothesis HBool : forall b, P (JBool b).
Hypothesis HInt : forall z, P (JInt z).
Hypothesis HStr : forall s, P (JStr s).
Hypothesis HList : forall l, Forall P l -> P (JList l).
Hypothesis HDict : forall items, Forall (fun kv => P (snd kv)) items -> P (JDict items).

Fixpoint json_nested_ind (j : json) : P j :=
  match j with
  | JNull => HNull
  | JBool b => HBool b
  | JInt z => HInt z
  | JStr s => HStr s
  | JList l =>
      HList l ((fix go (l : list json) : Forall P l :=
                match l with
                | [] => Forall_nil _
                | x :: l' => Forall_cons x (json_nested_ind x) (go l')
                end) l)
  | JDict items =>
      HDict items ((fix go (l : list (str * json)) : Forall (fun kv => P (snd kv)) l :=
                match l with
                | [] => Forall_nil _
                | kv :: l' =>
                    @Forall_cons _ (fun kv => P (snd kv)) kv l'
                      (json_nested_ind (snd kv)) (go l')
                end) items)
  end.
End JsonInd.

(** *** Dictionaries *)

Definition dict := list (str * json).

Fixpoint dict_get (d : dict) (k : str) : option json :=
  match d with
  | [] => None
  | (k', v) :: d' => if str_eqb k' k then Some v else dict_get d' k
  end.

Definition dict_mem (d : dict) (k : str) : bool :=
  match dict_get d k with Some _ => true | None => false end.

(** [d[k] = v]: an existing key keeps its position, a new key goes last. *)
Fixpoint dict_set (d : dict) (k : str) (v : json) : dict :=
  match d with
  | [] => [(k, v)]
  | (k', v') :: d' =>
      if str_eqb k' k then (k', v) :: d' else (k', v') :: dict_set d' k v
  end.

(** [dict(pairs)] *)
Definition dict_of_pairs (pairs : list (str * json)) : dict :=
  fold_left (fun d kv => dict_set d (fst kv) (snd kv)) pairs [].

Definition keys {A : Type} (d : list (str * A)) : list str := List.map fst d.

(** *** Sorting items by key, as [sort_keys=True] does *)

Fixpoint insert_item {A : Type} (kv : str * A) (l : list (str * A)) : list (str * A) :=
  match l with
  | [] => [kv]
  | x :: l' =>
      if str_leb (fst kv) (fst x) then kv :: l else x :: insert_item kv l'
  end.

Definition sort_items {A : Type} (l : list (str * A)) : list (str * A) :=
  fold_right insert_item [] l.

(** ** [json.dumps(obj, sort_keys=True, separators=(',', ':'))] *)

(** *** [int.__repr__] *)

Definition digit_char (d : N) : char := (48 + d)%N.

Fixpoint digits_fuel (fuel : nat) (n : N) (acc : str) : str :=
  match fuel with
  | O => acc
  | S f =>
      let acc' := digit_char (n mod 10) :: acc in
      if (n <? 10)%N then acc' else digits_fuel f (n / 10) acc'
  end.

Definition str_of_N (n : N) : str :=
  digits_fuel (S (N.to_nat (N.log2 n))) n [].

Definition ch_minus : char := 45%N.

Definition str_of_Z (z : Z) : str :=
  if z <? 0 then ch_minus :: str_of_N (Z.to_N (- z))
  else str_of_N (Z.to_N z).

(** *** [py_encode_basestring_ascii] *)

Definition hex_char (d : N) : char :=
  if (d <? 10)%N then (48 + d)%N else (87 + d)%N.

(** ['\\u{0:04x}'.format(n)] for [n < 0x10000] *)
Definition u_escape (n : N) : str :=
  [92; 117;
   hex_char (N.shiftr n 12 mod 16);
   hex_char (N.shiftr n 8 mod 16);
   hex_char (N.shiftr n 4 mod 16);
   hex_char (n mod 16)]%N.

(** The replacement of one character matched by [ESCAPE_ASCII] (a backslash,
    a double quote, or anything outside the printable range from space to
    tilde); other characters are kept. *)
Definition escape_char (c : char) : str :=
  if (c =? 92)%N then [92; 92]%N
  else if (c =? 34)%N then [92; 34]%N
  else if ((32 <=? c) && (c <=? 126))%N then [c]
  else if (c =? 8)%N then [92; 98]%N
  else if (c =? 12)%N then [92; 102]%N
  else if (c =? 10)%N then [92; 110]%N
  else if (c =? 13)%N then [92; 114]%N
  else if (c =? 9)%N then [92; 116]%N
  else if (c <? 65536)%N then u_escape c
  else
    let n := (c - 65536)%N in
    let s1 := N.lor 55296 (N.land (N.shiftr n 10) 1023) in
    let s2 := N.lor 56320 (N.land n 1023) in
    u_escape s1 ++ u_escape s2.

Definition encode_basestring_ascii (s : str) : str :=
  ch_quote :: flat_map escape_char s ++ [ch_quote].

(** *** The encoder *)

Fixpoint join (sep : str) (l : list str) : str :=
  match l with
  | [] => []
  | [x] => x
  | x :: l' => x ++ sep ++ join sep l'
  end.

Definition render_item (kv : str * str) : str :=
  encode_basestring_ascii (fst kv) ++ lit ":" ++ snd kv.

(** Each value is rendered, then the items are put in key order and joined;
    the key order is that of [sorted(dct.items())]. *)
Fixpoint dumps (j : json) : str :=
  match j with
  | JNull => lit "null"
  | JBool true => lit "true"
  | JBool false => lit "false"
  | JInt z => str_of_Z z
  | JStr s => encode_basestring_ascii s
  | JList l =>
      lit "[" ++ join (lit ",") (List.map dumps l) ++ lit "]"
  | JDict items =>
      lit "{" ++
      join (lit ",")
        (List.map render_item
           (sort_items (List.map (fun kv => (fst kv, dumps (snd kv))) items)))
      ++ lit "}"
  end.

(** [s.encode('utf-8')]: surrogates cannot be encoded. *)
Definition utf8_encode_char (c : char) : result bytes :=
  let b (n : N) := byte_of_Z (Z.of_N n) in
  if (c <? 128)%N then Ok [b c]
  else if (c <? 2048)%N then
    Ok [b (192 + N.shiftr c 6); b (128 + c mod 64)]%N
  else if ((55296 <=? c) && (c <=? 57343))%N then Raise UnicodeError
  else if (c <? 65536)%N then
    Ok [b (224 + N.shiftr c 12); b (128 + N.shiftr c 6 mod 64);
        b (128 + c mod 64)]%N
  else if (c <? 1114112)%N then
    Ok [b (240 + N.shiftr c 18); b (128 + N.shiftr c 12 mod 64);
        b (128 + N.shiftr c 6 mod 64); b (128 + c mod 64)]%N
  else Raise UnicodeError.

Fixpoint utf8_encode (s : str) : result bytes :=
  match s with
  | [] => Ok []
  | c :: s' =>
      do bc <- utf8_encode_char c;
      do bs <- utf8_encode s';
      Ok (bc ++ bs)
  end.

(** ** Paths

    [os.path.join(a, b)] of [posixpath]: an absolute [b] replaces [a]. *)
Definition os_path_join (a b : str) : str :=
  if startswith b (lit "/") then b
  else if match a with [] => true | _ => endswith a (lit "/") end then a ++ b
  else a ++ lit "/" ++ b.

(** ** The source directory, as the builder observes it

    [_path_to_dict] looks at the file system through [os.scandir],
    [os.path.isdir] (which follows symbolic links), [DirEntry.is_symlink]
    (which does not) and [DirEntry.stat].  The model records what these
    calls answer along every path below the root: an entry for which
    [os.path.isdir] holds carries the outcome of scanning it.  The view is
    finite because path resolution fails on a cycle of links. *)

Inductive stat_result : Type :=
| StatOk (st_size : N)
| StatPermissionError
| StatOSError.

Unset Elimination Schemes.
Inductive scan : Type :=
| ScanOk (entries : list dirent)
| ScanPermissionError
| ScanOSError
with dirent : Type :=
| EDir (name : str) (is_symlink : bool) (sub : scan)
| EOther (name : str) (is_symlink : bool) (st : stat_result).
Set Elimination Schemes.

Definition entry_name (e : dirent) : str :=
  match e with
  | EDir name _ _ => name
  | EOther name _ _ => name
  end.



(** ** [Asar] *)

Record stream : Type := mkStream {
  data : bytes;
  in_memory : bool
}.

Record Asar : Type := mkAsar {
  path : str;
  fp : stream;
  header : json;
  base_offset : Z
}.

(** ** [Asar.compress] *)

(** The two variables [_path_to_dict] closes over. *)
Record builder : Type := mkBuilder {
  offset : Z;
  paths : list str
}.

Definition k_files : str := lit "files".
Definition k_link : str := lit "link".
Definition k_size : str := lit "size".
Definition k_offset : str := lit "offset".

Definition dir_node (files : dict) : json := JDict [(k_files, JDict files)].
Definition link_node (target : str) : json := JDict [(k_link, JStr target)].
Definition file_node (size : Z) (off : str) : json :=
  JDict [(k_size, JInt size); (k_offset, JStr off)].

Section Compress.

(** [os.path.realpath], in the working directory of the process. *)
Variable realpath : str -> str.

(** [open(file_path, 'rb').read()]; an exception is [Raise]. *)
Variable read_file : str -> result bytes.

Variable exclude_patterns : list str.

(** <<
    for pattern in exclude_patterns:
        if pattern in file_path:
            return True
    return False
    >> *)
Definition should_exclude (file_path : str) : bool :=
  existsb (fun pattern => str_contains file_path pattern) exclude_patterns.

(** The body of the [for] loop and the [try] around it.  A
    [PermissionError] from [os.scandir] or [f.stat()] ends the loop and
    keeps what was built; any other exception propagates. *)
Fixpoint _path_to_dict (dir_path : str) (sc : scan) (b : builder)
  {struct sc} : result (json * builder) :=
  match sc with
  | ScanOk entries =>
      do (files, b') <-
        (fix loop (es : list dirent) (files : dict) (b : builder)
           {struct es} : result (dict * builder) :=
           match es with
           | [] => Ok (files, b)
           | f :: es' =>
               let f_path := os_path_join dir_path (entry_name f) in
               if should_exclude f_path then loop es' files b
               else
                 match f with
                 | EDir name _ sub =>
                     do (d, b') <- _path_to_dict f_path sub b;
                     loop es' (dict_set files name d) b'
                 | EOther name true _ =>
                     loop es' (dict_set files name (link_node (realpath name))) b
                 | EOther name false st =>
                     let b1 := mkBuilder (offset b) (paths b ++ [f_path]) in
                     match st with
                     | StatOk st_size =>
                         let size := Z.of_N st_size in
                         loop es'
                           (dict_set files name
                              (file_node size (str_of_Z (offset b1))))
                           (mkBuilder (offset b1 + size) (paths b1))
                     | StatPermissionError => Ok (files, b1)
                     | StatOSError => Raise OSError
                     end
                 end
           end) entries [] b;
      Ok (dir_node files, b')
  | ScanPermissionError => Ok (dir_node [], b)
  | ScanOSError => Raise OSError
  end.

(** <<
    for file_path in file_paths:
        try:
            with open(file_path, 'rb') as f:
                _bytes.write(f.read())
        except Exception as e:
            print(...)
    >> *)
Fixpoint _paths_to_bytes (file_paths : list str) : bytes :=
  match file_paths with
  | [] => []
  | file_path :: rest =>
      match read_file file_path with
      | Ok data => data ++ _paths_to_bytes rest
      | Raise _ => _paths_to_bytes rest
      end
  end.

Definition pad_header (header_json : bytes) (diff : Z) : bytes :=
  if diff =? 0 then header_json
  else header_json ++ repeat x00 (Z.to_nat diff).

Definition compress (path : str) (root : scan) : result Asar :=
  do (header, b) <- _path_to_dict path root (mkBuilder 0 []);
  do header_json <- utf8_encode (dumps header);
  let header_string_size := Z.of_nat (length header_json) in
  let data_size := 4 in
  let aligned_size := round_up header_string_size data_size in
  let header_size := aligned_size + 8 in
  let header_object_size := aligned_size + data_size in
  let diff := aligned_size - header_string_size in
  let header_json := pad_header header_json diff in
  do record <- pack_4I data_size header_size header_object_size
                 header_string_size;
  Ok (mkAsar path
        (mkStream (record ++ header_json ++ _paths_to_bytes (paths b)) true)
        header
        (round_up (16 + header_string_size) 4)).

End Compress.

(** ** [bytes.decode('utf-8')]

    Strict decoding: well-formed sequences only, no overlong forms and no
    surrogates. *)

Definition cont_bits (b : byte) : N := (Byte.to_N b mod 64)%N.

Definition in_range (lo hi : N) (b : byte) : bool :=
  ((lo <=? Byte.to_N b) && (Byte.to_N b <=? hi))%N.

Fixpoint utf8_decode (bs : bytes) : result str :=
  match bs with
  | [] => Ok []
  | b0 :: r0 =>
      let n0 := Byte.to_N b0 in
      if (n0 <? 128)%N then
        do s <- utf8_decode r0; Ok (n0 :: s)
      else
        match r0 with
        | [] => Raise UnicodeError
        | b1 :: r1 =>
            if in_range 194 223 b0 then
              if in_range 128 191 b1 then
                do s <- utf8_decode r1;
                Ok (((n0 - 192) * 64 + cont_bits b1)%N :: s)
              else Raise UnicodeError
            else
              match r1 with
              | [] => Raise UnicodeError
              | b2 :: r2 =>
                  if in_range 224 239 b0 then
                    let lo := if (n0 =? 224)%N then 160%N else 128%N in
                    let hi := if (n0 =? 237)%N then 159%N else 191%N in
                    if in_range lo hi b1 && in_range 128 191 b2 then
                      do s <- utf8_decode r2;
                      Ok ((((n0 - 224) * 64 + cont_bits b1) * 64
                           + cont_bits b2)%N :: s)
                    else Raise UnicodeError
                  else
                    match r2 with
                    | [] => Raise UnicodeError
                    | b3 :: r3 =>
                        if in_range 240 244 b0 then
                          let lo := if (n0 =? 240)%N then 144%N else 128%N in
                          let hi := if (n0 =? 244)%N then 143%N else 191%N in
                          if in_range lo hi b1 && in_range 128 191 b2
                             && in_range 128 191 b3 then
                            do s <- utf8_decode r3;
                            Ok (((((n0 - 240) * 64 + cont_bits b1) * 64
                                  + cont_bits b2) * 64 + cont_bits b3)%N :: s)
                          else Raise UnicodeError
                        else Raise UnicodeError
                    end
              end
        end
  end.

(** ** [json.loads]

    The decoder of the standard library: [py_scanstring], [JSONObject],
    [JSONArray] and the scanner [scan_once].  The input position is the
    remaining text.  The nesting of calls is bounded by [fuel]; [loads]
    supplies more than the text can use. *)

Definition is_ws (c : char) : bool :=
  ((c =? 32) || (c =? 9) || (c =? 10) || (c =? 13))%N.

Fixpoint skip_ws (s : str) : str :=
  match s with
  | c :: s' => if is_ws c then skip_ws s' else s
  | [] => []
  end.

Definition hex_val (c : char) : option N :=
  if ((48 <=? c) && (c <=? 57))%N then Some (c - 48)%N
  else if ((97 <=? c) && (c <=? 102))%N then Some (c - 87)%N
  else if ((65 <=? c) && (c <=? 70))%N then Some (c - 55)%N
  else None.

(** [int(esc, 16)] on four hexadecimal digits *)
Definition hex4 (a b c d : char) : option N :=
  match hex_val a, hex_val b, hex_val c, hex_val d with
  | Some x, Some y, Some z, Some w => Some (((x * 16 + y) * 16 + z) * 16 + w)%N
  | _, _, _, _ => None
  end.

Definition is_high_surrogate (u : N) : bool := ((55296 <=? u) && (u <=? 56319))%N.
Definition is_low_surrogate (u : N) : bool := ((56320 <=? u) && (u <=? 57343))%N.

(** The [BACKSLASH] table *)
Definition backslash_char (esc : char) : option char :=
  if (esc =? 34)%N then Some 34%N
  else if (esc =? 92)%N then Some 92%N
  else if (esc =? 47)%N then Some 47%N
  else if (esc =? 98)%N then Some 8%N
  else if (esc =? 102)%N then Some 12%N
  else if (esc =? 110)%N then Some 10%N
  else if (esc =? 114)%N then Some 13%N
  else if (esc =? 116)%N then Some 9%N
  else None.

Definition cons_fst {A : Type} (c : char) (r : result (str * A)) : result (str * A) :=
  do (s, rest) <- r; Ok (c :: s, rest).

(** [py_scanstring(s, end, strict=True)], entered after the opening quote;
    returns the string and the text after the closing quote. *)
Fixpoint scanstring (s : str) : result (str * str) :=
  match s with
  | [] => Raise JSONDecodeError
  | c :: s1 =>
      if (c =? 34)%N then Ok ([], s1)
      else if (c <? 32)%N then Raise JSONDecodeError
      else if negb (c =? 92)%N then cons_fst c (scanstring s1)
      else
        match s1 with
        | [] => Raise JSONDecodeError
        | esc :: s2 =>
            if negb (esc =? 117)%N then
              match backslash_char esc with
              | Some ch => cons_fst ch (scanstring s2)
              | None => Raise JSONDecodeError
              end
            else
              match s2 with
              | h1 :: h2 :: h3 :: h4 :: s3 =>
                  match hex4 h1 h2 h3 h4 with
                  | None => Raise JSONDecodeError
                  | Some uni =>
                      match s3 with
                      | b :: u :: s4 =>
                          if is_high_surrogate uni && (b =? 92)%N && (u =? 117)%N
                          then
                            match s4 with
                            | g1 :: g2 :: g3 :: g4 :: s5 =>
                                match hex4 g1 g2 g3 g4 with
                                | None => Raise JSONDecodeError
                                | Some uni2 =>
                                    if is_low_surrogate uni2 then
                                      cons_fst
                                        (65536 + N.lor (N.shiftl (uni - 55296) 10)
                                                   (uni2 - 56320))%N
                                        (scanstring s5)
                                    else cons_fst uni (scanstring s3)
                                end
                            | _ => Raise JSONDecodeError
                            end
                          else cons_fst uni (scanstring s3)
                      | _ => cons_fst uni (scanstring s3)
                      end
                  end
              | _ => Raise JSONDecodeError
              end
        end
  end.

Definition is_digit (c : char) : bool := ((48 <=? c) && (c <=? 57))%N.

(** The longest prefix of digits, read as a number in base ten. *)
Fixpoint take_digits (acc : N) (s : str) : N * str :=
  match s with
  | c :: s' => if is_digit c then take_digits (acc * 10 + (c - 48))%N s' else (acc, s)
  | [] => (acc, [])
  end.

Definition starts_with_digit (s : str) : bool :=
  match s with c :: _ => is_digit c | [] => false end.

(** Whether the text continues a number with a fraction or an exponent,
    the second and third groups of [NUMBER_RE]. *)
Definition float_tail (s : str) : bool :=
  match s with
  | c :: s' =>
      if (c =? 46)%N then starts_with_digit s'
      else if ((c =? 101) || (c =? 69))%N then
        match s' with
        | sg :: s'' =>
            if ((sg =? 43) || (sg =? 45))%N then starts_with_digit s''
            else is_digit sg
        | [] => false
        end
      else false
  | [] => false
  end.

(** The integer group of [NUMBER_RE] after its optional sign, then the
    check that neither a fraction nor an exponent follows. *)
Definition match_unsigned (neg : bool) (s : str) : option (result (Z * str)) :=
  match s with
  | c :: s' =>
      if (c =? 48)%N then
        Some (if float_tail s' then Raise FloatUnsupported else Ok (0, s'))
      else if is_digit c then
        let '(n, rest) := take_digits (c - 48)%N s' in
        Some (if float_tail rest then Raise FloatUnsupported
              else Ok (if neg then - Z.of_N n else Z.of_N n, rest))
      else None
  | [] => None
  end.

(** [match_number] *)
Definition match_number (s : str) : option (result (Z * str)) :=
  match s with
  | c :: s' => if (c =? 45)%N then match_unsigned true s' else match_unsigned false s
  | [] => None
  end.

Fixpoint scan_once (fuel : nat) (s : str) {struct fuel} : result (json * str) :=
  match fuel with
  | O => Raise RecursionError
  | S fuel' =>
      match s with
      | [] => Raise JSONDecodeError
      | c :: s' =>
          if (c =? 34)%N then
            do (v, rest) <- scanstring s'; Ok (JStr v, rest)
          else if (c =? 123)%N then
            (* JSONObject *)
            match skip_ws s' with
            | c1 :: s1 =>
                if (c1 =? 125)%N then Ok (JDict [], s1)
                else if (c1 =? 34)%N then
                  do (pairs, rest) <- object_items fuel' s1;
                  Ok (JDict (dict_of_pairs pairs), rest)
                else Raise JSONDecodeError
            | [] => Raise JSONDecodeError
            end
          else if (c =? 91)%N then
            (* JSONArray *)
            match skip_ws s' with
            | c1 :: s1 =>
                if (c1 =? 93)%N then Ok (JList [], s1)
                else
                  do (values, rest) <- array_items fuel' (c1 :: s1);
                  Ok (JList values, rest)
            | [] => Raise JSONDecodeError
            end
          else if startswith s (lit "null") then Ok (JNull, skipn 4 s)
          else if startswith s (lit "true") then Ok (JBool true, skipn 4 s)
          else if startswith s (lit "false") then Ok (JBool false, skipn 5 s)
          else
            match match_number s with
            | Some r => do (z, rest) <- r; Ok (JInt z, rest)
            | None =>
                if startswith s (lit "NaN") || startswith s (lit "Infinity")
                   || startswith s (lit "-Infinity")
                then Raise FloatUnsupported
                else Raise JSONDecodeError
            end
      end
  end

(** The [while True] loop of [JSONObject], entered after the opening quote
    of a key. *)
with object_items (fuel : nat) (s : str) {struct fuel}
  : result (list (str * json) * str) :=
  match fuel with
  | O => Raise RecursionError
  | S fuel' =>
      do (key, s1) <- scanstring s;
      match skip_ws s1 with
      | colon :: s2 =>
          if negb (colon =? 58)%N then Raise JSONDecodeError
          else
            do (value, s3) <- scan_once fuel' (skip_ws s2);
            match skip_ws s3 with
            | nextchar :: s4 =>
                if (nextchar =? 125)%N then Ok ([(key, value)], s4)
                else if negb (nextchar =? 44)%N then Raise JSONDecodeError
                else
                  match skip_ws s4 with
                  | q :: s5 =>
                      if (q =? 34)%N then
                        do (pairs, rest) <- object_items fuel' s5;
                        Ok ((key, value) :: pairs, rest)
                      else Raise JSONDecodeError
                  | [] => Raise JSONDecodeError
                  end
            | [] => Raise JSONDecodeError
            end
      | [] => Raise JSONDecodeError
      end
  end

(** The [while True] loop of [JSONArray]. *)
with array_items (fuel : nat) (s : str) {struct fuel}
  : result (list json * str) :=
  match fuel with
  | O => Raise RecursionError
  | S fuel' =>
      do (value, s1) <- scan_once fuel' s;
      match skip_ws s1 with
      | nextchar :: s2 =>
          if (nextchar =? 93)%N then Ok ([value], s2)
          else if negb (nextchar =? 44)%N then Raise JSONDecodeError
          else
            do (values, rest) <- array_items fuel' (skip_ws s2);
            Ok (value :: values, rest)
      | [] => Raise JSONDecodeError
      end
  end.

(** [json.loads(s)] on a [str]: no byte order mark, one value, then only
    whitespace. *)
Definition loads (s : str) : result json :=
  if startswith s [65279%N] then Raise JSONDecodeError
  else
    do (obj, rest) <- scan_once (S (length s)) (skip_ws s);
    match skip_ws rest with
    | [] => Ok obj
    | _ :: _ => Raise JSONDecodeError
    end.

(** ** Operations on Python objects used by the reader *)

(** [k in x] for a string [k] *)
Definition py_in (k : str) (x : json) : result bool :=
  match x with
  | JDict d => Ok (dict_mem d k)
  | JList l =>
      Ok (existsb (fun e => match e with JStr s => str_eqb s k | _ => false end) l)
  | JStr s => Ok (str_contains s k)
  | _ => Raise TypeError
  end.

(** [x[k]] for a string [k] *)
Definition py_getitem (x : json) (k : str) : result json :=
  match x with
  | JDict d =>
      match dict_get d k with
      | Some v => Ok v
      | None => Raise KeyError
      end
  | _ => Raise TypeError
  end.

(** [f(x[k])], with the lookup written as a scan of the items so that a
    recursive [f] is applied to a part of [x]. *)
Definition with_item {A : Type} (x : json) (k : str)
  (on_error : exn -> A) (f : json -> A) : A :=
  match x with
  | JDict d =>
      (fix find (d : dict) : A :=
         match d with
         | [] => on_error KeyError
         | (k', v) :: d' => if str_eqb k' k then f v else find d'
         end) d
  | _ => on_error TypeError
  end.

(** [bool(x)] *)
Definition truthy (x : json) : bool :=
  match x with
  | JNull => false
  | JBool b => b
  | JInt z => negb (z =? 0)
  | JStr s => match s with [] => false | _ => true end
  | JList l => match l with [] => false | _ => true end
  | JDict d => match d with [] => false | _ => true end
  end.

Definition is_space (c : char) : bool :=
  ((c =? 32) || ((9 <=? c) && (c <=? 13)))%N.

Fixpoint lstrip (s : str) : str :=
  match s with
  | c :: s' => if is_space c then lstrip s' else s
  | [] => []
  end.

Definition strip (s : str) : str := rev (lstrip (rev (lstrip s))).

Definition ch_underscore : char := 95%N.

(** Decimal digits, a single underscore allowed between two digits. *)
Fixpoint parse_digits (acc : N) (s : str) : option N :=
  match s with
  | [] => Some acc
  | c :: s' =>
      if is_digit c then parse_digits (acc * 10 + (c - 48))%N s'
      else if (c =? ch_underscore)%N then
        match s' with
        | c' :: _ => if is_digit c' then parse_digits acc s' else None
        | [] => None
        end
      else None
  end.

Definition parse_unsigned (s : str) : option N :=
  match s with
  | c :: _ => if is_digit c then parse_digits 0 s else None
  | [] => None
  end.

(** [int(x)]; on a string: optional surrounding whitespace, an optional
    sign, then ASCII decimal digits. *)
Definition py_int (x : json) : result Z :=
  match x with
  | JInt z => Ok z
  | JBool b => Ok (if b then 1 else 0)
  | JStr s =>
      let body := strip s in
      let '(neg, digits) :=
        match body with
        | c :: r =>
            if (c =? 45)%N then (true, r)
            else if (c =? 43)%N then (false, r)
            else (false, body)
        | [] => (false, body)
        end in
      match parse_unsigned digits with
      | Some n => Ok (if neg then - Z.of_N n else Z.of_N n)
      | None => Raise ValueError
      end
  | _ => Raise TypeError
  end.

(** ** The archive handle

    [fp] is an [io.BytesIO] after [compress] and a buffered reader on a
    disk file after [open]; the two differ on a negative position and on a
    length below -1. *)

Definition seek (f : stream) (pos : Z) : result nat :=
  if pos <? 0 then Raise (if in_memory f then ValueError else OSError)
  else Ok (Z.to_nat pos).

Definition read_at (f : stream) (pos : nat) (size : Z) : result bytes :=
  let tail := skipn pos (data f) in
  if size <? 0 then
    if (size <? -1) && negb (in_memory f) then Raise ValueError else Ok tail
  else Ok (firstn (Z.to_nat size) tail).

(** ** [Asar.open]

    [content] is what [open(path, 'rb')] gives access to, or the exception
    it raises; every exception is replaced by the one [open] builds. *)
Definition asar_open_body (path : str) (content : result bytes) : result Asar :=
  do file <- content;
  do fields <- unpack_4I (firstn 16 file);
  let '(data_size, header_size, header_object_size, header_string_size) := fields in
  do header_json <-
    utf8_decode (firstn (Z.to_nat header_string_size) (skipn 16 file));
  do header <- loads header_json;
  Ok (mkAsar path (mkStream file false) header
        (round_up (16 + header_string_size) 4)).

Definition asar_open (path : str) (content : result bytes) : result Asar :=
  match asar_open_body path content with
  | Ok a => Ok a
  | Raise _ => Raise OpenFailed
  end.

(** ** [Asar.list_files] *)

(** <<
    for name, info in files_dict.items():
        full_path = os.path.join(current_path, name).replace('\\', '/')
        if 'files' in info:
            files.append(full_path + '/')
            _walk_files(info['files'], full_path)
        else:
            files.append(full_path)
    >> *)
Fixpoint _walk_files (files_dict : json) (current_path : str)
  : result (list str) :=
  match files_dict with
  | JDict items =>
      (fix loop (items : dict) : result (list str) :=
         match items with
         | [] => Ok []
         | (name, info) :: rest =>
             let full_path :=
               replace_char ch_backslash ch_slash (os_path_join current_path name) in
             do is_dir <- py_in k_files info;
             do here <-
               (if is_dir then
                  do below <-
                    with_item info k_files Raise
                      (fun sub => _walk_files sub full_path);
                  Ok ((full_path ++ lit "/") :: below)
                else Ok [full_path]);
             do after <- loop rest;
             Ok (here ++ after)
         end) items
  | _ => Raise AttributeError
  end.

Definition list_files (a : Asar) (prefix : str) : result (list str) :=
  do files_dict <- py_getitem (header a) k_files;
  do files <- _walk_files files_dict [];
  Ok (filter (fun f => startswith f prefix) files).

(** ** [Asar.extract_file] *)

(** <<
    if not path_parts: return None
    name = path_parts[0]
    if name not in files_dict: return None
    if len(path_parts) == 1: return files_dict[name]
    else:
        if 'files' in files_dict[name]:
            return _find_file(files_dict[name]['files'], path_parts[1:])
        return None
    >> *)
Fixpoint _find_file (files_dict : json) (path_parts : list str)
  : result (option json) :=
  match path_parts with
  | [] => Ok None
  | name :: rest =>
      do present <- py_in name files_dict;
      if negb present then Ok None
      else
        do node <- py_getitem files_dict name;
        match rest with
        | [] => Ok (Some node)
        | _ :: _ =>
            do is_dir <- py_in k_files node;
            if is_dir then
              do sub <- py_getitem node k_files;
              _find_file sub rest
            else Ok None
        end
  end.

Definition extract_file (a : Asar) (file_path : str) : result bytes :=
  let path_parts :=
    split_char ch_slash (replace_char ch_backslash ch_slash file_path) in
  do files_dict <- py_getitem (header a) k_files;
  do found <- _find_file files_dict path_parts;
  match found with
  | None => Raise FileNotFoundError
  | Some file_info =>
      if negb (truthy file_info) then Raise FileNotFoundError
      else
        do has_offset <- py_in k_offset file_info;
        if negb has_offset then Raise FileNotFoundError
        else
          do off_v <- py_getitem file_info k_offset;
          do off <- py_int off_v;
          do pos <- seek (fp a) (base_offset a + off);
          do size_v <- py_getitem file_info k_size;
          do size <- py_int size_v;
          read_at (fp a) pos size
  end.

(** ** [Asar.get_file_info] *)

Record file_info : Type := mkInfo {
  info_path : str;
  info_base_offset : Z;
  file_count : Z;
  info_header : json
}.

Definition get_file_info (a : Asar) : result file_info :=
  do files <- list_files a [];
  Ok (mkInfo (path a) (base_offset a) (Z.of_nat (length files)) (header a)).

(** ** More of [posixpath] *)

Definition is_slash (c : char) : bool := (c =? ch_slash)%N.

(** The part of [s] after its last slash, and the part up to and including
    it. *)
Fixpoint split_last_slash (s : str) : str * str :=
  match s with
  | [] => ([], [])
  | c :: s' =>
      let '(head, tail) := split_last_slash s' in
      if existsb is_slash s then (c :: head, tail) else ([], s)
  end.

Fixpoint rstrip_slashes_rev (r : str) : str :=
  match r with
  | c :: r' => if is_slash c then rstrip_slashes_rev r' else r
  | [] => []
  end.

(** <<
    head = p[:i]
    if head and head != sep*len(head): head = head.rstrip(sep)
    >> *)
Definition os_path_dirname (p : str) : str :=
  let head := fst (split_last_slash p) in
  if forallb is_slash head then head
  else rev (rstrip_slashes_rev (rev head)).

Definition os_path_basename (p : str) : str := snd (split_last_slash p).

Definition dot : str := lit ".".
Definition dotdot : str := lit "..".

(** The loop of [normpath] over the components; [new_comps] is kept in
    reverse. *)
Fixpoint norm_comps (initial_slashes : bool) (comps : list str)
  (new_comps : list str) : list str :=
  match comps with
  | [] => rev new_comps
  | comp :: rest =>
      if match comp with [] => true | _ => str_eqb comp dot end then
        norm_comps initial_slashes rest new_comps
      else if negb (str_eqb comp dotdot)
              || (negb initial_slashes
                  && match new_comps with [] => true | _ => false end)
              || match new_comps with
                 | last :: _ => str_eqb last dotdot
                 | [] => false
                 end
      then norm_comps initial_slashes rest (comp :: new_comps)
      else norm_comps initial_slashes rest (tl new_comps)
  end.

Definition os_path_normpath (p : str) : str :=
  match p with
  | [] => dot
  | _ =>
      let initial_slashes :=
        if startswith p (lit "/") then
          if startswith p (lit "//") && negb (startswith p (lit "///"))
          then 2%nat else 1%nat
        else 0%nat in
      let comps := split_char ch_slash p in
      let new_comps :=
        norm_comps (negb (Nat.eqb initial_slashes 0)) comps [] in
      let joined := repeat ch_slash initial_slashes ++ join (lit "/") new_comps in
      match joined with
      | [] => dot
      | _ => joined
      end
  end.

(** ** The destination file system

    [extract] acts on the file system through the calls below.  A call
    takes the state of the file system and returns its outcome with the
    new state; a call that raises may still have changed the state. *)

Definition io (world A : Type) : Type := world -> result A * world.

Definition io_ret {world A : Type} (a : A) : io world A :=
  fun w => (Ok a, w).

Definition io_raise {world A : Type} (e : exn) : io world A :=
  fun w => (Raise e, w).

Definition io_bind {world A B : Type} (m : io world A) (k : A -> io world B)
  : io world B :=
  fun w =>
    match m w with
    | (Ok a, w') => k a w'
    | (Raise e, w') => (Raise e, w')
    end.

Definition io_lift {world A : Type} (r : result A) : io world A :=
  fun w => (r, w).

Declare Scope io_scope.
Delimit Scope io_scope with io.
Notation "x <- m ;; k" := (io_bind m (fun x => k))
  (at level 61, m at next level, right associativity) : io_scope.
Notation "m ;; k" := (io_bind m (fun _ => k))
  (at level 61, right associativity) : io_scope.

Class FileSystem (world : Type) : Type := {
  (** [os.path.exists] *)
  os_path_exists : str -> world -> bool;
  (** [os.path.isdir] *)
  os_path_isdir : str -> world -> bool;
  (** [os.makedirs(name, exist_ok)] *)
  os_makedirs : str -> bool -> io world unit;
  (** [with open(dest, 'wb') as f: f.write(r)] *)
  write_file : str -> bytes -> io world unit;
  (** [shutil.copyfile] *)
  shutil_copyfile : str -> str -> io world unit;
  (** [os.symlink(src, dst)]; [FileExistsError] is the [OSError] whose
      [errno] is [EEXIST] *)
  os_symlink : str -> str -> io world unit;
  (** [os.unlink] *)
  os_unlink : str -> io world unit
}.

Section Extract.

Context {world : Type} `{FileSystem world}.
Local Open Scope io_scope.

Variable self : Asar.

Definition test {A : Type} (f : str -> world -> A) (p : str) : io world A :=
  fun w => (Ok (f p w), w).

(** <<
    unpacked_dir = self.path + '.unpacked'
    if not os.path.isdir(unpacked_dir): return
    src = os.path.join(unpacked_dir, source)
    if not os.path.exists(src): return
    dest = os.path.join(destination, source)
    os.makedirs(os.path.dirname(dest), exist_ok=True)
    shutil.copyfile(src, dest)
    >> *)
Definition _copy_unpacked_file (source destination : str) : io world unit :=
  let unpacked_dir := path self ++ lit ".unpacked" in
  is_dir <- test os_path_isdir unpacked_dir ;;
  if negb is_dir then io_ret tt
  else
    let src := os_path_join unpacked_dir source in
    present <- test os_path_exists src ;;
    if negb present then io_ret tt
    else
      let dest := os_path_join destination source in
      os_makedirs (os_path_dirname dest) true ;;
      shutil_copyfile src dest.

(** <<
    if 'offset' not in info:
        self._copy_unpacked_file(source, destination); return
    self.fp.seek(self.base_offset + int(info['offset']))
    r = self.fp.read(int(info['size']))
    dest = os.path.join(destination, source)
    os.makedirs(os.path.dirname(dest), exist_ok=True)
    with open(dest, 'wb') as f: f.write(r)
    >> *)
Definition _extract_file (source : str) (info : json) (destination : str)
  : io world unit :=
  has_offset <- io_lift (py_in k_offset info) ;;
  if negb has_offset then _copy_unpacked_file source destination
  else
    r <- io_lift
           (do off_v <- py_getitem info k_offset;
            do off <- py_int off_v;
            do pos <- seek (fp self) (base_offset self + off);
            do size_v <- py_getitem info k_size;
            do size <- py_int size_v;
            read_at (fp self) pos size) ;;
    let dest := os_path_join destination source in
    os_makedirs (os_path_dirname dest) true ;;
    write_file dest r.

(** <<
    dest_filename = os.path.normpath(os.path.join(destination, source))
    link_src_path = os.path.dirname(os.path.join(destination, link))
    link_to = os.path.join(link_src_path, os.path.basename(link))
    try:
        os.symlink(link_to, dest_filename)
    except OSError as e:
        if e.errno == errno.EEXIST:
            os.unlink(dest_filename)
            os.symlink(link_to, dest_filename)
        else:
            raise e
    >> *)
Definition _extract_link (source : str) (link : json) (destination : str)
  : io world unit :=
  match link with
  | JStr link =>
      let dest_filename :=
        os_path_normpath (os_path_join destination source) in
      let link_src_path := os_path_dirname (os_path_join destination link) in
      let link_to := os_path_join link_src_path (os_path_basename link) in
      fun w =>
        match os_symlink link_to dest_filename w with
        | (Raise FileExistsError, w') =>
            (os_unlink dest_filename ;; os_symlink link_to dest_filename) w'
        | r => r
        end
  | _ => io_raise TypeError
  end.

(** <<
    dest = os.path.normpath(os.path.join(destination, source))
    if not os.path.exists(dest):
        os.makedirs(dest)
    for name, info in files.items():
        item_path = os.path.join(source, name)
        if 'files' in info:
            self._extract_directory(item_path, info['files'], destination)
        elif 'link' in info:
            self._extract_link(item_path, info['link'], destination)
        else:
            self._extract_file(item_path, info, destination)
    >> *)
Fixpoint _extract_directory (source : str) (files : json) (destination : str)
  : io world unit :=
  let dest := os_path_normpath (os_path_join destination source) in
  present <- test os_path_exists dest ;;
  (if negb present then os_makedirs dest false else io_ret tt) ;;
  match files with
  | JDict items =>
      (fix loop (items : dict) : io world unit :=
         match items with
         | [] => io_ret tt
         | (name, info) :: rest =>
             let item_path := os_path_join source name in
             is_dir <- io_lift (py_in k_files info) ;;
             (if is_dir then
                with_item info k_files io_raise
                  (fun sub => _extract_directory item_path sub destination)
              else
                is_link <- io_lift (py_in k_link info) ;;
                if is_link then
                  link <- io_lift (py_getitem info k_link) ;;
                  _extract_link item_path link destination
                else _extract_file item_path info destination) ;;
             loop rest
         end) items
  | _ => io_raise AttributeError
  end.

(** <<
    path = str(path)
    if os.path.exists(path):
        raise FileExistsError(...)
    self._extract_directory('.', self.header['files'], path)
    >> *)
Definition extract (path : str) : io world unit :=
  present <- test os_path_exists path ;;
  if present then io_raise FileExistsError
  else
    files <- io_lift (py_getitem (header self) k_files) ;;
    _extract_directory dot files path.

End Extract.

(** ** Induction on the observed directory *)

Section ScanInd.
Variable P : scan -> Prop.
Variable Q : dirent -> Prop.
Hypothesis HOk : forall entries, Forall Q entries -> P (ScanOk entries).
Hypothesis HPerm : P ScanPermissionError.
Hypothesis HOSError : P ScanOSError.
Hypothesis HDir : forall name l sub, P sub -> Q (EDir name l sub).
Hypothesis HOther : forall name l st, Q (EOther name l st).

Fixpoint scan_nested_ind (sc : scan) : P sc :=
  match sc with
  | ScanOk entries =>
      HOk entries ((fix go (es : list dirent) : Forall Q es :=
              match es with
              | [] => Forall_nil _
              | e :: es' => Forall_cons e (dirent_nested_ind e) (go es')
              end) entries)
  | ScanPermissionError => HPerm
  | ScanOSError => HOSError
  end
with dirent_nested_ind (e : dirent) : Q e :=
  match e with
  | EDir name l sub => HDir name l sub (scan_nested_ind sub)
  | EOther name l st => HOther name l st
  end.
End ScanInd.

(** ** Notions used to state the properties *)

Fixpoint str_in (k : str) (l : list str) : bool :=
  match l with
  | [] => false
  | x :: l' => str_eqb x k || str_in k l'
  end.

Fixpoint distinct (l : list str) : bool :=
  match l with
  | [] => true
  | x :: l' => negb (str_in x l') && distinct l'
  end.

(** [os.scandir] lists every name of a directory once. *)
Fixpoint unique_names (sc : scan) : bool :=
  match sc with
  | ScanOk entries =>
      distinct (List.map entry_name entries) &&
      (fix all (es : list dirent) : bool :=
         match es with
         | [] => true
         | EDir _ _ sub :: es' => unique_names sub && all es'
         | EOther _ _ _ :: es' => all es'
         end) entries
  | _ => true
  end.

(** The [for] loop of [_path_to_dict], as a function of its own. *)
Fixpoint scan_loop (realpath : str -> str) (exclude_patterns : list str)
  (dir_path : str) (es : list dirent) (files : dict) (b : builder)
  : result (dict * builder) :=
  match es with
  | [] => Ok (files, b)
  | f :: es' =>
      let f_path := os_path_join dir_path (entry_name f) in
      if should_exclude exclude_patterns f_path
      then scan_loop realpath exclude_patterns dir_path es' files b
      else
        match f with
        | EDir name _ sub =>
            do (d, b') <- _path_to_dict realpath exclude_patterns f_path sub b;
            scan_loop realpath exclude_patterns dir_path es'
              (dict_set files name d) b'
        | EOther name true _ =>
            scan_loop realpath exclude_patterns dir_path es'
              (dict_set files name (link_node (realpath name))) b
        | EOther name false st =>
            let b1 := mkBuilder (offset b) (paths b ++ [f_path]) in
            match st with
            | StatOk st_size =>
                let size := Z.of_N st_size in
                scan_loop realpath exclude_patterns dir_path es'
                  (dict_set files name (file_node size (str_of_Z (offset b1))))
                  (mkBuilder (offset b1 + size) (paths b1))
            | StatPermissionError => Ok (files, b1)
            | StatOSError => Raise OSError
            end
        end
  end.

(** The [File] nodes of a tree that carry an offset, as [(size, offset)]
    pairs in the order of the tree: a node with a [files] key is a
    directory, one with a [link] key a link, as [_extract_directory]
    decides. *)
Fixpoint packed_files (node : json) : list (Z * str) :=
  match node with
  | JDict d =>
      if dict_mem d k_files then
        with_item (JDict d) k_files (fun _ => [])
          (fun sub =>
             match sub with
             | JDict items =>
                 (fix go (items : dict) : list (Z * str) :=
                    match items with
                    | [] => []
                    | (_, info) :: rest => packed_files info ++ go rest
                    end) items
             | _ => []
             end)
      else if dict_mem d k_link then []
      else
        match dict_get d k_size, dict_get d k_offset with
        | Some (JInt size), Some (JStr off) => [(size, off)]
        | _, _ => []
        end
  | _ => []
  end.

Definition packed_items (items : dict) : list (Z * str) :=
  flat_map (fun kv => packed_files (snd kv)) items.

Definition total_size (l : list (Z * str)) : Z :=
  fold_right (fun so acc => fst so + acc) 0 l.

(** Each offset is the decimal text of the sum of the sizes before it,
    counted from [start]. *)
Fixpoint contiguous_from (start : Z) (l : list (Z * str)) : Prop :=
  match l with
  | [] => True
  | (size, off) :: l' =>
      off = str_of_Z start /\ 0 <= size /\ contiguous_from (start + size) l'
  end.

(** The offsets of [nodes] are decimal numbers that start at 0, and each is
    the previous offset plus the previous size; [strict] asks in addition
    that each offset is larger than the previous one. *)
Definition offsets_laid_out (strict : bool) (nodes : list (Z * str)) : Prop :=
  exists offs : list Z,
    List.map snd nodes = List.map str_of_Z offs /\
    hd 0 offs = 0 /\
    forall i o s o',
      nth_error offs i = Some o ->
      nth_error (List.map fst nodes) i = Some s ->
      nth_error offs (S i) = Some o' ->
      o' = o + s /\ (if strict then o < o' else o <= o').

Fixpoint running_offsets (start : Z) (sizes : list Z) : list Z :=
  match sizes with
  | [] => []
  | s :: sizes' => start :: running_offsets (start + s) sizes'
  end.

(** *** Sample inputs *)

Definition bytes_of_string (s : String.string) : bytes :=
  List.map (fun a => byte_of_Z (Z.of_N (N_of_ascii a)))
    (String.list_ascii_of_string s).
Arguments bytes_of_string s%_string.

Definition no_links (p : str) : str := p.

(** A directory with an empty file [a] and a two-byte file [b]. *)
Definition sample_empty_file : scan :=
  ScanOk [EOther (lit "a") false (StatOk 0); EOther (lit "b") false (StatOk 2)].

Definition sample_empty_file_read (p : str) : result bytes :=
  if str_eqb p (lit "src/a") then Ok []
  else if str_eqb p (lit "src/b") then Ok (bytes_of_string "yo")
  else Raise FileNotFoundError.

(** The scenario of the specification: [a.txt] holds [hi], [sub/b.txt]
    holds [yo]. *)
Definition sample_hiyo : scan :=
  ScanOk [EOther (lit "a.txt") false (StatOk 2);
          EDir (lit "sub") false
            (ScanOk [EOther (lit "b.txt") false (StatOk 2)])].

Definition sample_hiyo_read (p : str) : result bytes :=
  if str_eqb p (lit "src/a.txt") then Ok (bytes_of_string "hi")
  else if str_eqb p (lit "src/sub/b.txt") then Ok (bytes_of_string "yo")
  else Raise FileNotFoundError.

(** How the node [v] stored for an entry [e] of [dir_path] came about. *)
Definition built_from (realpath : str -> str) (pats : list str)
  (dir_path : str) (e : dirent) (v : json) : Prop :=
  match e with
  | EDir name _ sub =>
      exists b1 b2,
        _path_to_dict realpath pats (os_path_join dir_path name) sub b1
          = Ok (v, b2)
  | EOther name true _ => v = link_node (realpath name)
  | EOther name false (StatOk st_size) =>
      exists off, v = file_node (Z.of_N st_size) (str_of_Z off)
  | EOther _ false _ => False
  end.




(** [sample_hiyo] with an unreadable [a.txt]. *)
Definition sample_unreadable_read (p : str) : result bytes :=
  if str_eqb p (lit "src/sub/b.txt") then Ok (bytes_of_string "yo")
  else Raise PermissionError.

(** What a file of the list contributes to the payload. *)
Definition contribution (read_file : str -> result bytes) (file_path : str)
  : bytes :=
  match read_file file_path with
  | Ok content => content
  | Raise _ => []
  end.

(** The directory [/src] holds a file [t.txt] and a link [l] to it; the
    process runs in [/work]. *)
Definition sample_cwd : str := lit "/work".

Definition sample_realpath (p : str) : str :=
  let absolute := if startswith p (lit "/") then p else os_path_join sample_cwd p in
  if str_eqb absolute (lit "/src/l") then lit "/src/t.txt" else absolute.

Definition sample_link : scan :=
  ScanOk [EOther (lit "t.txt") false (StatOk 2);
          EOther (lit "l") true (StatOk 2)].

Definition sample_link_read (p : str) : result bytes :=
  if str_eqb p (lit "/src/t.txt") then Ok (bytes_of_string "hi")
  else Raise FileNotFoundError.

(** A directory that lists [b] before [a]. *)
Definition sample_b_then_a : scan :=
  ScanOk [EOther (lit "b") false (StatOk 1);
          EOther (lit "a") false (StatOk 1)].

Definition sample_b_then_a_read (p : str) : result bytes :=
  Ok (bytes_of_string "x").

(** The serialization the specification describes: as [dumps], with the
    items of every dictionary in insertion order. *)
Fixpoint dumps_insertion_order (j : json) : str :=
  match j with
  | JNull => lit "null"
  | JBool true => lit "true"
  | JBool false => lit "false"
  | JInt z => str_of_Z z
  | JStr s => encode_basestring_ascii s
  | JList l =>
      lit "[" ++ join (lit ",") (List.map dumps_insertion_order l) ++ lit "]"
  | JDict items =>
      lit "{" ++
      join (lit ",")
        (List.map render_item
           (List.map (fun kv => (fst kv, dumps_insertion_order (snd kv))) items))
      ++ lit "}"
  end.

Definition key_leb {A : Type} (x y : str * A) : Prop :=
  str_leb (fst x) (fst y) = true.

(** ** Trees

    The headers that describe a tree: every node is a dictionary, and the
    [files] key of a node, when present, holds a dictionary of nodes.  A
    node with a [files] key is a [Directory]; among the others, one with a
    [link] key is a [Symlink] and the rest are [File] nodes, with or
    without an [offset]. *)
Fixpoint is_tree_node (node : json) : bool :=
  match node with
  | JDict d =>
      if dict_mem d k_files then
        with_item (JDict d) k_files (fun _ => false)
          (fun sub =>
             match sub with
             | JDict items =>
                 (fix all (items : dict) : bool :=
                    match items with
                    | [] => true
                    | (_, info) :: rest => is_tree_node info && all rest
                    end) items
             | _ => false
             end)
      else true
  | _ => false
  end.

Definition is_tree_files (files_dict : json) : bool :=
  match files_dict with
  | JDict items => forallb (fun kv => is_tree_node (snd kv)) items
  | _ => false
  end.



(** The number of [File] and [Symlink] leaves, and of [Directory] nodes, at
    and below a node. *)
Fixpoint count_leaves (node : json) : nat :=
  match node with
  | JDict d =>
      if dict_mem d k_files then
        with_item (JDict d) k_files (fun _ => O)
          (fun sub =>
             match sub with
             | JDict items =>
                 (fix go (items : dict) : nat :=
                    match items with
                    | [] => O
                    | (_, info) :: rest => (count_leaves info + go rest)%nat
                    end) items
             | _ => O
             end)
      else 1%nat
  | _ => O
  end.

Fixpoint count_directories (node : json) : nat :=
  match node with
  | JDict d =>
      if dict_mem d k_files then
        S (with_item (JDict d) k_files (fun _ => O)
             (fun sub =>
                match sub with
                | JDict items =>
                    (fix go (items : dict) : nat :=
                       match items with
                       | [] => O
                       | (_, info) :: rest => (count_directories info + go rest)%nat
                       end) items
                | _ => O
                end))
      else O
  | _ => O
  end.

Definition sum_over (f : json -> nat) (items : dict) : nat :=
  fold_right (fun kv acc => (f (snd kv) + acc)%nat) O items.

(** An archive with a directory [sub] that holds one file. *)
Definition sample_one_dir : Asar :=
  mkAsar (lit "app.asar") (mkStream (bytes_of_string "yo") true)
    (dir_node [(lit "sub", dir_node [(lit "b.txt", file_node 2 (lit "0"))])])
    0.

(** The [for] loop of [_walk_files], as a function of its own. *)
Fixpoint walk_items (items : dict) (current_path : str) : result (list str) :=
  match items with
  | [] => Ok []
  | (name, info) :: rest =>
      let full_path :=
        replace_char ch_backslash ch_slash (os_path_join current_path name) in
      do is_dir <- py_in k_files info;
      do here <-
        (if is_dir then
           do below <-
             with_item info k_files Raise (fun sub => _walk_files sub full_path);
           Ok ((full_path ++ lit "/") :: below)
         else Ok [full_path]);
      do after <- walk_items rest current_path;
      Ok (here ++ after)
  end.

(** The entries listed below a dictionary of nodes. *)
Definition entries_in (files_dict : json) : nat :=
  match files_dict with
  | JDict items =>
      (sum_over count_leaves items + sum_over count_directories items)%nat
  | _ => O
  end.

Definition leaves_in (files_dict : json) : nat :=
  match files_dict with
  | JDict items => sum_over count_leaves items
  | _ => O
  end.

Definition directories_in (files_dict : json) : nat :=
  match files_dict with
  | JDict items => sum_over count_directories items
  | _ => O
  end.

(** *** A file system in memory

    Objects are stored under their normalized path; it serves to run
    [extract] on examples. *)
Inductive fs_object : Type :=
| FsDir
| FsFile (content : bytes)
| FsLink (target : str).

Definition mem_fs : Type := list (str * fs_object).

Fixpoint mem_find (p : str) (w : mem_fs) : option fs_object :=
  match w with
  | [] => None
  | (q, o) :: w' => if str_eqb q p then Some o else mem_find p w'
  end.

Definition mem_lookup (p : str) (w : mem_fs) : option fs_object :=
  mem_find (os_path_normpath p) w.

Definition mem_put (p : str) (o : fs_object) (w : mem_fs) : mem_fs :=
  filter (fun e => negb (str_eqb (fst e) (os_path_normpath p))) w
    ++ [(os_path_normpath p, o)].

Definition mem_remove (p : str) (w : mem_fs) : mem_fs :=
  filter (fun e => negb (str_eqb (fst e) (os_path_normpath p))) w.

Definition mem_exists (p : str) (w : mem_fs) : bool :=
  match mem_lookup p w with Some _ => true | None => false end.

Definition mem_isdir (p : str) (w : mem_fs) : bool :=
  match mem_lookup p w with Some FsDir => true | _ => false end.

#[export] Instance mem_file_system : FileSystem mem_fs := {
  os_path_exists := mem_exists;
  os_path_isdir := mem_isdir;
  os_makedirs name exist_ok w :=
    match mem_lookup name w with
    | Some FsDir => (if exist_ok then Ok tt else Raise FileExistsError, w)
    | Some _ => (Raise FileExistsError, w)
    | None => (Ok tt, mem_put name FsDir w)
    end;
  write_file dest r w :=
    match mem_lookup dest w with
    | Some FsDir => (Raise OSError, w)
    | _ => (Ok tt, mem_put dest (FsFile r) w)
    end;
  shutil_copyfile src dest w :=
    match mem_lookup src w with
    | Some (FsFile content) => (Ok tt, mem_put dest (FsFile content) w)
    | _ => (Raise FileNotFoundError, w)
    end;
  os_symlink src dst w :=
    match mem_lookup dst w with
    | Some _ => (Raise FileExistsError, w)
    | None => (Ok tt, mem_put dst (FsLink src) w)
    end;
  os_unlink p w :=
    match mem_lookup p w with
    | Some FsDir => (Raise PermissionError, w)
    | Some _ => (Ok tt, mem_remove p w)
    | None => (Raise FileNotFoundError, w)
    end
}.

(** A destination that holds a file already. *)
Definition sample_occupied : mem_fs :=
  [(lit "out", FsDir); (lit "out/keep.txt", FsFile (bytes_of_string "old"))].

(** ** Notions for the header round trip *)

(** The tree description that [compress] writes for a header: the record
    of four fields and the serialized tree with its padding (the statements
    of [compress] from [json.dumps] to the second [fp.write]). *)
Definition encode_tree (header : json) : result bytes :=
  do header_json <- utf8_encode (dumps header);
  let header_string_size := Z.of_nat (length header_json) in
  let data_size := 4 in
  let aligned_size := round_up header_string_size data_size in
  let header_size := aligned_size + 8 in
  let header_object_size := aligned_size + data_size in
  let diff := aligned_size - header_string_size in
  let header_json := pad_header header_json diff in
  do record <- pack_4I data_size header_size header_object_size
                 header_string_size;
  Ok (record ++ header_json).

(** A [str] of Python: code points below 0x110000.  The round trip needs
    in addition that no high surrogate stands directly before a low one
    (file names decoded by the operating system interface never hold such
    a pair: it is read as one code point). *)
Definition is_code_point (c : char) : bool := (c <? 1114112)%N.

Fixpoint no_split_pair (s : str) : bool :=
  match s with
  | [] => true
  | c :: s' =>
      match s' with
      | c' :: _ => negb (is_high_surrogate c && is_low_surrogate c')
      | [] => true
      end && no_split_pair s'
  end.

Definition wf_str (s : str) : bool :=
  forallb is_code_point s && no_split_pair s.

(** Values whose strings are as above and whose dictionaries have distinct
    keys, as every [dict] has. *)
Fixpoint wf_json (j : json) : bool :=
  match j with
  | JStr s => wf_str s
  | JList l => forallb wf_json l
  | JDict items =>
      distinct (List.map fst items) &&
      forallb (fun kv => wf_str (fst kv) && wf_json (snd kv)) items
  | _ => true
  end.

(** The value with the items of every dictionary in key order. *)
Fixpoint key_sorted (j : json) : json :=
  match j with
  | JList l => JList (List.map key_sorted l)
  | JDict items =>
      JDict (sort_items (List.map (fun kv => (fst kv, key_sorted (snd kv))) items))
  | _ => j
  end.

(** [x == y] of Python: the order of the items of a dictionary is not
    compared, and [True == 1]. *)
Fixpoint py_eq (x y : json) : bool :=
  match x, y with
  | JNull, JNull => true
  | JBool a, JBool b => Bool.eqb a b
  | JBool a, JInt z => (if a then 1 else 0) =? z
  | JInt z, JBool b => z =? (if b then 1 else 0)
  | JInt a, JInt b => a =? b
  | JStr a, JStr b => str_eqb a b
  | JList a, JList b =>
      (fix all (a b : list json) : bool :=
         match a, b with
         | [], [] => true
         | x :: a', y :: b' => py_eq x y && all a' b'
         | _, _ => false
         end) a b
  | JDict a, JDict b =>
      Nat.eqb (length a) (length b) &&
      (fix all (a : dict) : bool :=
         match a with
         | [] => true
         | (k, v) :: a' =>
             match dict_get b k with
             | Some v' => py_eq v v'
             | None => false
             end && all a'
         end) a
  | _, _ => false
  end.

(** ** Notions used in the proofs *)

(** The listing below an entry names every entry once. *)
Definition sub_unique (e : dirent) : bool :=
  match e with
  | EDir _ _ sub => unique_names sub
  | EOther _ _ _ => true
  end.

(** What one run of the builder adds to the tree and to the counter. *)
Definition builds_contiguous realpath pats (sc : scan) : Prop :=
  unique_names sc = true ->
  forall dir_path b node b',
    _path_to_dict realpath pats dir_path sc b = Ok (node, b') ->
    exists files,
      node = dir_node files /\
      contiguous_from (offset b) (packed_items files) /\
      offset b' = offset b + total_size (packed_items files).

(** [_walk_files] succeeds on a dictionary of nodes and lists every entry
    below it. *)
Definition walk_lists_all (files_dict : json) : Prop :=
  is_tree_files files_dict = true ->
  forall current_path,
    exists l,
      _walk_files files_dict current_path = Ok l /\
      length l = entries_in files_dict.

(** The number that the decimal digits [ds] denote after [acc]. *)
Fixpoint horner (acc : N) (ds : str) : N :=
  match ds with
  | [] => acc
  | c :: ds' => horner (acc * 10 + (c - 48))%N ds'
  end.

(** After the escape of a high surrogate, the decoder does not find the
    escape of a low surrogate at the head of [tail]. *)
Definition safe_after_high (tail : str) : bool :=
  match tail with
  | b :: u :: s4 =>
      if (b =? 92)%N && (u =? 117)%N then
        match s4 with
        | g1 :: g2 :: g3 :: g4 :: _ =>
            match hex4 g1 g2 g3 g4 with
            | Some uni2 => negb (is_low_surrogate uni2)
            | None => false
            end
        | _ => false
        end
      else true
  | _ => true
  end.

Definition is_ascii (c : char) : bool := (c <? 128)%N.

(** The first character of a serialized value. *)

Definition value_start (c : char) : bool :=
  ((c =? 34) || (c =? 123) || (c =? 91) || (c =? 110) || (c =? 116)
   || (c =? 102) || (c =? 45) || is_digit c)%N.

(** What follows a serialized value: nothing, a comma or a closing
    bracket. *)
Definition delimited (rest : str) : bool :=
  match rest with
  | [] => true
  | c :: _ => ((c =? 44) || (c =? 93) || (c =? 125))%N
  end.

(** One item of a dictionary, as [dumps] writes it. *)
Definition render_kv (kv : str * json) : str :=
  encode_basestring_ascii (fst kv) ++ lit ":" ++ dumps (snd kv).

(** The text of the items of a list after the opening bracket, and of the
    items of a dictionary after the opening quote of the first key. *)
Fixpoint arr_body (l : list json) (rest : str) : str :=
  match l with
  | [] => rest
  | x :: more =>
      dumps x ++
      match more with
      | [] => 93%N :: rest
      | _ :: _ => 44%N :: arr_body more rest
      end
  end.

Fixpoint obj_body (kvs : list (str * json)) (rest : str) : str :=
  match kvs with
  | [] => rest
  | kv :: more =>
      flat_map escape_char (fst kv) ++ 34%N :: 58%N :: dumps (snd kv) ++
      match more with
      | [] => 125%N :: rest
      | _ :: _ => 44%N :: 34%N :: obj_body more rest
      end
  end.

(** A bound on the calls the decoder nests to read the items. *)
Definition arr_need (l : list json) : nat :=
  fold_right (fun x acc => S (length (dumps x) + acc)) O l.

Definition obj_need (kvs : list (str * json)) : nat :=
  fold_right (fun kv acc => S (length (dumps (snd kv)) + acc)) O kvs.

(** The scanner reads the text of [j] back as [key_sorted j] and stops
    before what follows. *)
Definition reads_back (j : json) : Prop :=
  wf_json j = true ->
  forall fuel rest,
    (length (dumps j) < fuel)%nat ->
    delimited rest = true ->
    scan_once fuel (dumps j ++ rest) = Ok (key_sorted j, rest).

(** The byte of an ASCII character. *)
Definition byte_of_char (c : char) : byte := byte_of_Z (Z.of_N c).

(** [_path_to_dict] returns a tree. *)
Definition builds_tree realpath pats (sc : scan) : Prop :=
  forall dir_path b node b',
    _path_to_dict realpath pats dir_path sc b = Ok (node, b') ->
    is_tree_node node = true.

(** * Further definitions *)

(** ** What the packer builds *)

(** The three shapes of node that [_path_to_dict] writes: a directory with
    distinct names, a link, a file with a size and the decimal text of an
    offset, neither negative. *)
Inductive packer_tree : json -> Prop :=
| packer_directory files :
    Forall (fun kv => packer_tree (snd kv)) files ->
    NoDup (keys files) ->
    packer_tree (dir_node files)
| packer_link target :
    packer_tree (link_node target)
| packer_file size off :
    0 <= size -> 0 <= off ->
    packer_tree (file_node size (str_of_Z off)).

Definition builds_packer_tree realpath pats (sc : scan) : Prop :=
  forall dir_path b node b',
    0 <= offset b ->
    _path_to_dict realpath pats dir_path sc b = Ok (node, b') ->
    packer_tree node /\ offset b <= offset b'.

(** The paths that [_path_to_dict] adds to the file list are paths that no
    pattern excludes. *)
Definition lists_included realpath pats (sc : scan) : Prop :=
  forall dir_path b node b',
    _path_to_dict realpath pats dir_path sc b = Ok (node, b') ->
    exists added,
      paths b' = paths b ++ added /\
      Forall (fun q => should_exclude pats q = false) added.

(** ** What the source directory holds *)

(** [file_at pats dir_path sc parts q size]: in the directory [sc], whose
    path is [dir_path], the names [parts] lead through directories to a
    regular file whose path is [q] and for which [stat] reports [size]
    bytes, and no pattern of [pats] occurs in a path on the way. *)
Inductive file_at (pats : list str) : str -> scan -> list str -> str -> N -> Prop :=
| file_here dir_path entries name size :
    In (EOther name false (StatOk size)) entries ->
    should_exclude pats (os_path_join dir_path name) = false ->
    file_at pats dir_path (ScanOk entries) [name]
      (os_path_join dir_path name) size
| file_below dir_path entries name l sub next rest q size :
    In (EDir name l sub) entries ->
    should_exclude pats (os_path_join dir_path name) = false ->
    file_at pats (os_path_join dir_path name) sub (next :: rest) q size ->
    file_at pats dir_path (ScanOk entries) (name :: next :: rest) q size.

(** [stat] is not denied on a regular file, here and below. *)
Definition entry_stat_ok (no_stat_denied : scan -> bool) (e : dirent) : bool :=
  match e with
  | EDir _ _ sub => no_stat_denied sub
  | EOther _ false StatPermissionError => false
  | EOther _ _ _ => true
  end.

Fixpoint no_stat_denied (sc : scan) : bool :=
  match sc with
  | ScanOk entries =>
      (fix all (es : list dirent) : bool :=
         match es with
         | [] => true
         | e :: es' => entry_stat_ok no_stat_denied e && all es'
         end) entries
  | _ => true
  end.




(** ** Names that the tree description can carry *)

Definition entry_names_wf (names_wf : scan -> bool) (e : dirent) : bool :=
  match e with
  | EDir name _ sub => wf_str name && names_wf sub
  | EOther name _ _ => wf_str name
  end.

(** Every name below [sc] is a sequence of code points in which no high
    surrogate is followed by a low one. *)
Fixpoint names_wf (sc : scan) : bool :=
  match sc with
  | ScanOk entries =>
      (fix all (es : list dirent) : bool :=
         match es with
         | [] => true
         | e :: es' => entry_names_wf names_wf e && all es'
         end) entries
  | _ => true
  end.


(** ** The commands

    The four functions behind the menu.  [open_rb path w] is what
    [open(path, 'rb')] gives access to in the state [w] of the file
    system, or the exception it raises. *)

Section Commands.

Context {world : Type} `{FileSystem world}.
Local Open Scope io_scope.

Variable open_rb : str -> world -> result bytes.


(** <<
    with Asar.open(source) as a:
        a.extract(dest)
    >> *)
Definition extract_asar (source dest : str) : io world unit :=
  fun w =>
    (a <- io_lift (asar_open source (open_rb source w)) ;;
     extract a dest) w.

(** <<
    with Asar.open(asar_path) as a:
        return a.list_files()
    >> *)
Definition list_asar_files (asar_path : str) : io world (list str) :=
  fun w =>
    (a <- io_lift (asar_open asar_path (open_rb asar_path w)) ;;
     io_lift (list_files a [])) w.


End Commands.


(** * Properties *)

(** ** Lemmas on the arithmetic *)

Lemma round_up_4_align4 (n : Z) : round_up n 4 = align4 n.
Proof. unfold round_up, align4. f_equal. lia. Qed.

Lemma align4_div (n : Z) : align4 n = 4 * ((n + 3) / 4).
Proof.
  unfold align4.
  change 3 with (Z.ones 2) at 2.
  rewrite <- Z.ldiff_land, Z.ldiff_ones_r by lia.
  rewrite Z.shiftr_div_pow2, Z.shiftl_mul_pow2 by lia.
  change (2 ^ 2) with 4. lia.
Qed.

Lemma align4_bounds (n : Z) : n <= align4 n < n + 4.
Proof.
  rewrite align4_div.
  pose proof (Z.div_mod (n + 3) 4 ltac:(lia)).
  pose proof (Z.mod_pos_bound (n + 3) 4 ltac:(lia)).
  lia.
Qed.

Lemma align4_mod (n : Z) : align4 n mod 4 = 0.
Proof.
  rewrite align4_div, Z.mul_comm. apply Z.mod_mul. lia.
Qed.

Lemma align4_16 (n : Z) : align4 (16 + n) = 16 + align4 n.
Proof.
  rewrite !align4_div.
  replace (16 + n + 3) with (n + 3 + 4 * 4) by lia.
  rewrite Z.div_add by lia. lia.
Qed.


Lemma Z_of_byte_of_Z (z : Z) : Z_of_byte (byte_of_Z z) = z mod 256.
Proof.
  unfold Z_of_byte, byte_of_Z.
  pose proof (Z.mod_pos_bound z 256 ltac:(lia)) as Hb.
  destruct (Byte.of_N (Z.to_N (z mod 256))) as [b|] eqn:E.
  - apply Byte.to_of_N in E. rewrite E. lia.
  - apply Byte.of_N_None_iff in E. lia.
Qed.

Ltac testbit_cases :=
  repeat match goal with
    | |- context [Z.testbit (Z.ones 8) ?j] =>
        first [ rewrite (Z.ones_spec_low 8 j) by lia
              | rewrite (Z.ones_spec_high 8 j) by lia
              | rewrite (Z.testbit_neg_r (Z.ones 8) j) by lia ]
    end;
  rewrite ?andb_true_r, ?andb_false_r, ?orb_false_r, ?orb_false_l.

Lemma of_le32_le32 (v : Z) :
  0 <= v < 2 ^ 32 ->
  match le32 v with
  | [b0; b1; b2; b3] => of_le32 b0 b1 b2 b3 = v
  | _ => False
  end.
Proof.
  intros Hv. unfold le32, of_le32.
  rewrite !Z_of_byte_of_Z.
  change 256 with (2 ^ 8).
  rewrite <- !Z.land_ones by lia.
  apply Z.bits_inj'. intros i Hi.
  rewrite !Z.lor_spec.
  rewrite !Z.shiftl_spec by lia.
  rewrite !Z.land_spec.
  destruct (Z.ltb_spec i 8); [|destruct (Z.ltb_spec i 16);
    [|destruct (Z.ltb_spec i 24); [|destruct (Z.ltb_spec i 32)]]];
    testbit_cases.
  - reflexivity.
  - rewrite Z.shiftr_spec by lia. f_equal. lia.
  - rewrite Z.shiftr_spec by lia. f_equal. lia.
  - rewrite Z.shiftr_spec by lia. f_equal. lia.
  - symmetry. apply Z.bits_above_log2; [lia|].
    destruct (Z.eq_dec v 0) as [->|Hnz]; [simpl; lia|].
    apply Z.log2_lt_pow2; [lia|].
    apply Z.lt_le_trans with (2 ^ 32); [lia|].
    apply Z.pow_le_mono_r; lia.
Qed.

Lemma unpack_pack_4I (a b c d : Z) (bs : bytes) :
  pack_4I a b c d = Ok bs -> unpack_4I bs = Ok (a, b, c, d).
Proof.
  unfold pack_4I, u32_ok.
  destruct (_ && _) eqn:E; [|discriminate].
  intros [= <-].
  repeat (apply andb_prop in E; destruct E as [E ?]).
  repeat match goal with
         | H : (_ <=? _) = true |- _ => apply Z.leb_le in H
         | H : (_ <? _) = true |- _ => apply Z.ltb_lt in H
         end.
  pose proof (of_le32_le32 a ltac:(lia)) as Ha.
  pose proof (of_le32_le32 b ltac:(lia)) as Hb.
  pose proof (of_le32_le32 c ltac:(lia)) as Hc.
  pose proof (of_le32_le32 d ltac:(lia)) as Hd.
  unfold le32 in *. simpl. congruence.
Qed.

Lemma pack_4I_length (a b c d : Z) (bs : bytes) :
  pack_4I a b c d = Ok bs -> length bs = 16%nat.
Proof.
  unfold pack_4I. destruct (_ && _); [|discriminate].
  intros [= <-]. reflexivity.
Qed.


(** ** Strings *)

Lemma str_eqb_eq (a b : str) : str_eqb a b = true <-> a = b.
Proof.
  revert b. induction a as [|x a IH]; intros [|y b]; simpl; split;
    try discriminate; try reflexivity.
  - intros E. apply andb_prop in E. destruct E as [E1 E2].
    apply N.eqb_eq in E1. apply IH in E2. congruence.
  - intros [= -> ->]. rewrite N.eqb_refl. simpl. apply IH. reflexivity.
Qed.

Lemma str_eqb_refl (a : str) : str_eqb a a = true.
Proof. apply str_eqb_eq. reflexivity. Qed.

Lemma str_eqb_neq (a b : str) : str_eqb a b = false <-> a <> b.
Proof.
  split.
  - intros E Heq. apply str_eqb_eq in Heq. congruence.
  - intros Hn. destruct (str_eqb a b) eqn:E; [|reflexivity].
    apply str_eqb_eq in E. contradiction.
Qed.


(** ** The record written by [compress] *)

Lemma pad_header_app (bs : bytes) (diff : Z) :
  pad_header bs diff = bs ++ repeat x00 (Z.to_nat diff).
Proof.
  unfold pad_header. destruct (Z.eqb_spec diff 0) as [->|_].
  - simpl. rewrite app_nil_r. reflexivity.
  - reflexivity.
Qed.

Lemma compress_inv realpath read_file pats p root a :
  compress realpath read_file pats p root = Ok a ->
  exists hdr b tree_bytes record,
    _path_to_dict realpath pats p root (mkBuilder 0 []) = Ok (hdr, b) /\
    utf8_encode (dumps hdr) = Ok tree_bytes /\
    let n := Z.of_nat (length tree_bytes) in
    pack_4I 4 (round_up n 4 + 8) (round_up n 4 + 4) n = Ok record /\
    a = mkAsar p
          (mkStream
             (record ++ pad_header tree_bytes (round_up n 4 - n)
                ++ _paths_to_bytes read_file (paths b)) true)
          hdr (round_up (16 + n) 4).
Proof.
  unfold compress. intros Hc.
  destruct (_path_to_dict realpath pats p root (mkBuilder 0 []))
    as [[hdr b]|e] eqn:E1; simpl in Hc; [|discriminate].
  destruct (utf8_encode (dumps hdr)) as [tb|e] eqn:E2; simpl in Hc;
    [|discriminate].
  destruct (pack_4I 4 _ _ _) as [record|e] eqn:E3 in Hc; simpl in Hc;
    [|discriminate].
  injection Hc as <-.
  exists hdr, b, tb, record. repeat split; assumption.
Qed.

(** C3. The 16-byte record written by [compress] holds [dataSize = 4],
    [headerSize = align4(headerStringSize) + 8],
    [headerObjectSize = align4(headerStringSize) + 4] and
    [headerStringSize], the exact length of the serialized tree; the tree
    description follows, padded with NUL bytes to [align4(headerStringSize)]
    bytes, where [align4(n) = (n+3) & ~3] is what [round_up n 4] computes. *)
Theorem C3_header_fields realpath read_file pats p root a :
  compress realpath read_file pats p root = Ok a ->
  exists tree_bytes payload,
    utf8_encode (dumps (header a)) = Ok tree_bytes /\
    let n := Z.of_nat (length tree_bytes) in
    let padding := repeat x00 (Z.to_nat (align4 n - n)) in
    data (fp a) = firstn 16 (data (fp a)) ++ tree_bytes ++ padding ++ payload /\
    unpack_4I (firstn 16 (data (fp a))) = Ok (4, align4 n + 8, align4 n + 4, n) /\
    Z.of_nat (length (tree_bytes ++ padding)) = align4 n /\
    round_up n 4 = align4 n /\
    align4 n = Z.land (n + 3) (Z.lnot 3).
Proof.
  intros Hc. apply compress_inv in Hc.
  destruct Hc as (hdr & b & tb & record & Hd & He & Hp & ->).
  cbn [header fp data].
  exists tb, (_paths_to_bytes read_file (paths b)).
  rewrite round_up_4_align4 in *.
  pose proof (pack_4I_length _ _ _ _ _ Hp) as Hlen.
  pose proof (unpack_pack_4I _ _ _ _ _ Hp) as Hun.
  pose proof (align4_bounds (Z.of_nat (length tb))) as Hb.
  rewrite pad_header_app.
  assert (Hf : forall rest : bytes, firstn 16 (record ++ rest) = record).
  { intros rest. rewrite <- Hlen.
    rewrite firstn_app, Nat.sub_diag, firstn_all. simpl. apply app_nil_r. }
  cbv zeta.
  rewrite Hf. repeat split.
  - assumption.
  - rewrite <- app_assoc. reflexivity.
  - assumption.
  - rewrite length_app, repeat_length. lia.
Qed.

Lemma C3_header_fields_witness :
  exists a tree_bytes payload,
    compress no_links sample_hiyo_read [] (lit "src") sample_hiyo = Ok a /\
    utf8_encode (dumps (header a)) = Ok tree_bytes /\
    let n := Z.of_nat (length tree_bytes) in
    let padding := repeat x00 (Z.to_nat (align4 n - n)) in
    data (fp a) = firstn 16 (data (fp a)) ++ tree_bytes ++ padding ++ payload /\
    unpack_4I (firstn 16 (data (fp a))) = Ok (4, align4 n + 8, align4 n + 4, n) /\
    Z.of_nat (length (tree_bytes ++ padding)) = align4 n /\
    round_up n 4 = align4 n /\
    align4 n = Z.land (n + 3) (Z.lnot 3).
Proof.
  assert (Hc : exists a,
    compress no_links sample_hiyo_read [] (lit "src") sample_hiyo = Ok a).
  { eexists. vm_compute. reflexivity. }
  destruct Hc as (a & Hc).
  destruct (C3_header_fields _ _ _ _ _ _ Hc) as (tb & payload & H).
  exists a, tb, payload. split; [exact Hc | exact H].
Defined.


(** ** Dictionaries *)

Lemma str_in_In (k : str) (l : list str) : str_in k l = true <-> In k l.
Proof.
  induction l as [|x l IH]; simpl.
  - split; [discriminate | tauto].
  - rewrite orb_true_iff, str_eqb_eq, IH. tauto.
Qed.

Lemma distinct_NoDup (l : list str) : distinct l = true <-> NoDup l.
Proof.
  induction l as [|x l IH]; simpl.
  - split; [constructor | reflexivity].
  - rewrite andb_true_iff, negb_true_iff, IH. split.
    + intros [Hx Hl]. constructor; [|assumption].
      intros Hin. apply str_in_In in Hin. congruence.
    + intros Hnd. inversion Hnd as [|? ? Hx Hl]; subst. split; [|assumption].
      destruct (str_in x l) eqn:E; [|reflexivity].
      apply str_in_In in E. contradiction.
Qed.

Lemma dict_get_In (d : dict) (k : str) (v : json) :
  dict_get d k = Some v -> In (k, v) d.
Proof.
  induction d as [|[k' v'] d IH]; simpl; [discriminate|].
  destruct (str_eqb k' k) eqn:E.
  - apply str_eqb_eq in E. intros [= ->]. subst. left. reflexivity.
  - intros Hg. right. apply IH. assumption.
Qed.



Lemma dict_set_fresh (d : dict) (k : str) (v : json) :
  ~ In k (keys d) -> dict_set d k v = d ++ [(k, v)].
Proof.
  induction d as [|[k' v'] d IH]; simpl; intros Hn.
  - reflexivity.
  - destruct (str_eqb k' k) eqn:E.
    + apply str_eqb_eq in E. tauto.
    + rewrite IH by tauto. reflexivity.
Qed.


(** ** The loop of [_path_to_dict] *)

Lemma _path_to_dict_ScanOk realpath pats dir_path entries b :
  _path_to_dict realpath pats dir_path (ScanOk entries) b =
  bind (scan_loop realpath pats dir_path entries [] b)
    (fun r => Ok (dir_node (fst r), snd r)).
Proof.
  cbn [_path_to_dict].
  assert (Hloop : forall es files b0,
    (fix loop (es : list dirent) (files : dict) (b : builder) {struct es}
       : result (dict * builder) :=
       match es with
       | [] => Ok (files, b)
       | f :: es' =>
           let f_path := os_path_join dir_path (entry_name f) in
           if should_exclude pats f_path then loop es' files b
           else
             match f with
             | EDir name _ sub =>
                 do (d, b') <- _path_to_dict realpath pats f_path sub b;
                 loop es' (dict_set files name d) b'
             | EOther name true _ =>
                 loop es' (dict_set files name (link_node (realpath name))) b
             | EOther name false st =>
                 let b1 := mkBuilder (offset b) (paths b ++ [f_path]) in
                 match st with
                 | StatOk st_size =>
                     let size := Z.of_N st_size in
                     loop es'
                       (dict_set files name
                          (file_node size (str_of_Z (offset b1))))
                       (mkBuilder (offset b1 + size) (paths b1))
                 | StatPermissionError => Ok (files, b1)
                 | StatOSError => Raise OSError
                 end
             end
       end) es files b0 = scan_loop realpath pats dir_path es files b0).
  { induction es as [|f es IH]; intros files b0; [reflexivity|].
    cbn [scan_loop]. cbv zeta.
    destruct (should_exclude pats _); [apply IH|].
    destruct f as [name l sub|name [|] [sz| |]]; try apply IH; try reflexivity.
    destruct (_path_to_dict realpath pats _ sub b0) as [[d b']|e];
      [apply IH | reflexivity]. }
  rewrite Hloop.
  destruct (scan_loop realpath pats dir_path entries [] b) as [[files b']|e];
    reflexivity.
Qed.

(** ** Offsets assigned by the builder *)

Lemma packed_go_items (items : dict) :
  (fix go (items : dict) : list (Z * str) :=
     match items with
     | [] => []
     | (_, info) :: rest => packed_files info ++ go rest
     end) items = packed_items items.
Proof.
  induction items as [|[k v] items IH]; [reflexivity|].
  unfold packed_items. simpl. f_equal. exact IH.
Qed.

Lemma packed_files_dir_node (files : dict) :
  packed_files (dir_node files) = packed_items files.
Proof.
  unfold dir_node. cbn -[packed_items]. apply packed_go_items.
Qed.

Lemma packed_files_link_node (target : str) :
  packed_files (link_node target) = [].
Proof. reflexivity. Qed.

Lemma packed_files_file_node (size : Z) (off : str) :
  packed_files (file_node size off) = [(size, off)].
Proof. reflexivity. Qed.

Lemma packed_items_cons (k : str) (v : json) (l : dict) :
  packed_items ((k, v) :: l) = packed_files v ++ packed_items l.
Proof. reflexivity. Qed.

Lemma packed_items_app (a b : dict) :
  packed_items (a ++ b) = packed_items a ++ packed_items b.
Proof. unfold packed_items. apply flat_map_app. Qed.

Lemma total_size_nil : total_size [] = 0.
Proof. reflexivity. Qed.

Lemma total_size_cons (s : Z) (o : str) (l : list (Z * str)) :
  total_size ((s, o) :: l) = s + total_size l.
Proof. reflexivity. Qed.

Lemma total_size_app (a b : list (Z * str)) :
  total_size (a ++ b) = total_size a + total_size b.
Proof.
  induction a as [|[s o] a IH]; cbn [app].
  - rewrite total_size_nil. lia.
  - rewrite !total_size_cons, IH. lia.
Qed.

Lemma contiguous_from_app (start : Z) (a b : list (Z * str)) :
  contiguous_from start (a ++ b) <->
  contiguous_from start a /\ contiguous_from (start + total_size a) b.
Proof.
  revert start. induction a as [|[s o] a IH]; intros start;
    cbn [app contiguous_from].
  - rewrite total_size_nil, Z.add_0_r. tauto.
  - rewrite IH, total_size_cons, Z.add_assoc. tauto.
Qed.


Lemma unique_names_ScanOk (entries : list dirent) :
  unique_names (ScanOk entries) =
  distinct (List.map entry_name entries) && forallb sub_unique entries.
Proof.
  cbn [unique_names]. f_equal.
  induction entries as [|[name l sub|name l st] es IH]; simpl;
    [reflexivity| |]; rewrite IH; reflexivity.
Qed.


Lemma scan_loop_contiguous realpath pats (es : list dirent) :
  Forall (fun e => match e with
                   | EDir _ _ sub => builds_contiguous realpath pats sub
                   | EOther _ _ _ => True
                   end) es ->
  forall dir_path files b files' b',
    NoDup (List.map entry_name es) ->
    (forall n, In n (List.map entry_name es) -> ~ In n (keys files)) ->
    forallb sub_unique es = true ->
    scan_loop realpath pats dir_path es files b = Ok (files', b') ->
    exists added,
      files' = files ++ added /\
      (forall k, In k (keys added) -> In k (List.map entry_name es)) /\
      contiguous_from (offset b) (packed_items added) /\
      offset b' = offset b + total_size (packed_items added).
Proof.
  induction 1 as [|f es Hf Hes IH]; intros dir_path files b files' b' Hnd Hfresh Hu Hl.
  - simpl in Hl. injection Hl as <- <-. exists []. rewrite app_nil_r.
    change (packed_items []) with (@nil (Z * str)).
    rewrite total_size_nil. simpl. repeat split; try tauto; lia.
  - cbn [scan_loop] in Hl. cbv zeta in Hl.
    cbn [List.map] in Hnd, Hfresh. inversion Hnd as [|? ? Hnotin Hnd']; subst.
    cbn [forallb] in Hu. apply andb_prop in Hu. destruct Hu as [Huf Hu].
    assert (Hfresh' : forall n, In n (List.map entry_name es) -> ~ In n (keys files)).
    { intros n Hn. apply Hfresh. right. exact Hn. }
    assert (Hstep : forall v b1,
      scan_loop realpath pats dir_path es (dict_set files (entry_name f) v) b1
        = Ok (files', b') ->
      exists added1,
        files' = (files ++ [(entry_name f, v)]) ++ added1 /\
        (forall k, In k (keys added1) -> In k (List.map entry_name es)) /\
        contiguous_from (offset b1) (packed_items added1) /\
        offset b' = offset b1 + total_size (packed_items added1)).
    { intros v b1 Hl1.
      rewrite dict_set_fresh in Hl1 by (apply Hfresh; left; reflexivity).
      apply IH in Hl1; try assumption.
      intros n Hn. unfold keys. rewrite map_app, in_app_iff. simpl.
      intros [Hin|[Heq|[]]].
      - exact (Hfresh' n Hn Hin).
      - subst. contradiction. }
    destruct (should_exclude pats _).
    { apply IH in Hl; try assumption.
      destruct Hl as (added & -> & Hk & Hc & Ho).
      exists added. repeat split; try assumption.
      intros k Hin. right. apply Hk. exact Hin. }
    destruct f as [name l sub|name [|] st].
    + destruct (_path_to_dict realpath pats _ sub b) as [[d b1]|e] eqn:Ed;
        simpl in Hl; [|discriminate].
      apply (Hf Huf) in Ed. destruct Ed as (sf & -> & Hc1 & Ho1).
      apply Hstep in Hl. destruct Hl as (added1 & -> & Hk & Hc & Ho).
      exists ((name, dir_node sf) :: added1). rewrite <- app_assoc.
      split; [reflexivity|]. split.
      { intros k [<-|Hin]; [left; reflexivity | right; apply Hk; exact Hin]. }
      rewrite packed_items_cons, packed_files_dir_node.
      rewrite contiguous_from_app, total_size_app.
      rewrite <- Ho1. repeat split; try assumption. lia.
    + apply Hstep in Hl. destruct Hl as (added1 & -> & Hk & Hc & Ho).
      exists ((name, link_node (realpath name)) :: added1).
      rewrite <- app_assoc.
      split; [reflexivity|]. split.
      { intros k [<-|Hin]; [left; reflexivity | right; apply Hk; exact Hin]. }
      rewrite packed_items_cons, packed_files_link_node.
      split; assumption.
    + destruct st as [sz| |]; [| |discriminate].
      * apply Hstep in Hl. destruct Hl as (added1 & -> & Hk & Hc & Ho).
        cbn [offset] in Hc, Ho.
        exists ((name, file_node (Z.of_N sz) (str_of_Z (offset b))) :: added1).
        rewrite <- app_assoc.
        split; [reflexivity|]. split.
        { intros k [<-|Hin]; [left; reflexivity | right; apply Hk; exact Hin]. }
        rewrite packed_items_cons, packed_files_file_node.
        cbn [app contiguous_from]. rewrite total_size_cons.
        repeat split; try assumption; lia.
      * injection Hl as <- <-. exists []. rewrite app_nil_r.
        change (packed_items []) with (@nil (Z * str)).
        rewrite total_size_nil. simpl. repeat split; try tauto; lia.
Qed.

Lemma _path_to_dict_contiguous realpath pats (sc : scan) :
  builds_contiguous realpath pats sc.
Proof.
  apply (scan_nested_ind
           (builds_contiguous realpath pats)
           (fun e => match e with
                     | EDir _ _ sub => builds_contiguous realpath pats sub
                     | EOther _ _ _ => True
                     end)).
  - intros entries HQ Hu dir_path b node b' Hd.
    rewrite unique_names_ScanOk in Hu. apply andb_prop in Hu.
    destruct Hu as [Hd1 Hd2]. apply distinct_NoDup in Hd1.
    rewrite _path_to_dict_ScanOk in Hd.
    destruct (scan_loop realpath pats dir_path entries [] b)
      as [[files b1]|e] eqn:El; simpl in Hd; [|discriminate].
    injection Hd as <- <-.
    apply (scan_loop_contiguous _ _ _ HQ) in El; try assumption.
    + destruct El as (added & -> & _ & Hc & Ho).
      exists added. simpl. repeat split; assumption.
    + intros n _ [].
  - intros _ dir_path b node b' Hd. simpl in Hd. injection Hd as <- <-.
    exists []. change (packed_items []) with (@nil (Z * str)).
    rewrite total_size_nil. simpl. repeat split; lia.
  - intros _ dir_path b node b' Hd. discriminate.
  - intros name l sub IH. exact IH.
  - intros; exact I.
Qed.

Lemma running_offsets_nth (sizes : list Z) :
  forall start i o s o',
    Forall (fun s => 0 <= s) sizes ->
    nth_error (running_offsets start sizes) i = Some o ->
    nth_error sizes i = Some s ->
    nth_error (running_offsets start sizes) (S i) = Some o' ->
    o' = o + s /\ o <= o'.
Proof.
  induction sizes as [|s0 sizes IH]; intros start i o s o' Hpos Ho Hs Ho'.
  - destruct i; discriminate.
  - inversion Hpos as [|? ? Hs0 Hpos']; subst.
    destruct i as [|i].
    + simpl in Ho, Hs. injection Ho as <-. injection Hs as <-.
      destruct sizes as [|s1 sizes]; simpl in Ho'; [discriminate|].
      injection Ho' as <-. lia.
    + simpl in Ho, Hs. cbn [running_offsets nth_error] in Ho'.
      exact (IH (start + s0) i o s o' Hpos' Ho Hs Ho').
Qed.

Lemma contiguous_from_running (l : list (Z * str)) :
  forall start,
    contiguous_from start l ->
    List.map snd l = List.map str_of_Z (running_offsets start (List.map fst l)) /\
    Forall (fun s => 0 <= s) (List.map fst l).
Proof.
  induction l as [|[s o] l IH]; intros start Hc.
  - split; [reflexivity | constructor].
  - destruct Hc as (-> & Hs & Hc). apply IH in Hc. destruct Hc as [Hm Hf].
    cbn [List.map fst snd running_offsets]. split.
    + f_equal. exact Hm.
    + constructor; assumption.
Qed.

Lemma contiguous_laid_out (l : list (Z * str)) :
  contiguous_from 0 l -> offsets_laid_out false l.
Proof.
  intros Hc. apply contiguous_from_running in Hc. destruct Hc as [Hm Hf].
  exists (running_offsets 0 (List.map fst l)). split; [exact Hm|]. split.
  - destruct l; reflexivity.
  - intros i o s o' Ho Hs Ho'.
    exact (running_offsets_nth _ _ _ _ _ _ Hf Ho Hs Ho').
Qed.

(** C2, as the code has it. For a directory packed by [compress], the
    [File] nodes of the tree, in the order in which they were built, have
    offsets that start at 0 and are contiguous:
    [offset[i+1] = offset[i] + size[i]]. The offsets never decrease; they
    increase strictly only past a file that is not empty. *)
Theorem C2_offsets_contiguous realpath read_file pats p root a :
  unique_names root = true ->
  compress realpath read_file pats p root = Ok a ->
  offsets_laid_out false (packed_files (header a)).
Proof.
  intros Hu Hc. apply compress_inv in Hc.
  destruct Hc as (hdr & b & tb & record & Hd & _ & _ & ->).
  cbn [header].
  apply _path_to_dict_contiguous in Hd; [|exact Hu].
  destruct Hd as (files & -> & Hc & _).
  rewrite packed_files_dir_node. apply contiguous_laid_out. exact Hc.
Qed.

Lemma C2_offsets_contiguous_witness :
  exists a,
    unique_names sample_hiyo = true /\
    compress no_links sample_hiyo_read [] (lit "src") sample_hiyo = Ok a /\
    offsets_laid_out false (packed_files (header a)).
Proof.
  eexists. split; [reflexivity|]. split.
  - vm_compute. reflexivity.
  - apply (C2_offsets_contiguous no_links sample_hiyo_read [] (lit "src")
             sample_hiyo); vm_compute; reflexivity.
Defined.

(** C2 as stated fails: an empty file followed by another file gives two
    equal offsets, so the offsets are not strictly increasing. *)
Lemma C2_strictly_increasing_counterexample :
  exists a,
    unique_names sample_empty_file = true /\
    compress no_links sample_empty_file_read [] (lit "src") sample_empty_file
      = Ok a /\
    List.map snd (packed_files (header a)) = [lit "0"; lit "0"] /\
    ~ offsets_laid_out true (packed_files (header a)).
Proof.
  eexists. split; [reflexivity|]. split; [vm_compute; reflexivity|].
  split; [reflexivity|].
  intros (offs & Hm & _ & Hn).
  destruct offs as [|o1 [|o2 [|o3 offs]]]; try discriminate Hm.
  specialize (Hn 0%nat o1 0 o2 eq_refl eq_refl eq_refl). lia.
Qed.

(** ** Where the nodes of a directory come from *)

Lemma _path_to_dict_dir_node realpath pats dir_path sc b node b' :
  _path_to_dict realpath pats dir_path sc b = Ok (node, b') ->
  exists files, node = dir_node files.
Proof.
  destruct sc as [entries| |]; intros Hd.
  - rewrite _path_to_dict_ScanOk in Hd.
    destruct (scan_loop _ _ _ _ _ _) as [[files b1]|e]; [|discriminate].
    injection Hd as <- _. exists files. reflexivity.
  - injection Hd as <- _. exists []. reflexivity.
  - discriminate.
Qed.

Lemma dict_set_In (d : dict) (k : str) (v : json) (k' : str) (v' : json) :
  In (k', v') (dict_set d k v) -> In (k', v') d \/ (k' = k /\ v' = v).
Proof.
  induction d as [|[k0 v0] d IH]; simpl.
  - intros [[= <- <-]|[]]. right. split; reflexivity.
  - destruct (str_eqb k0 k) eqn:E.
    + apply str_eqb_eq in E. subst.
      intros [[= <- <-]|Hin]; [right; split; reflexivity | left; right; exact Hin].
    + intros [Heq|Hin]; [left; left; exact Heq|].
      apply IH in Hin. destruct Hin as [Hin|Hin]; [left; right; exact Hin | right; exact Hin].
Qed.

Lemma dict_set_keys (d : dict) (k : str) (v : json) (k' : str) :
  In k' (keys (dict_set d k v)) <-> In k' (keys d) \/ k' = k.
Proof.
  induction d as [|[k0 v0] d IH]; simpl.
  - split; [intros [<-|[]]; right; reflexivity | intros [[] | ->]; left; reflexivity].
  - destruct (str_eqb k0 k) eqn:E; simpl.
    + apply str_eqb_eq in E. subst. split; [tauto|].
      intros [H | ->]; [exact H | left; reflexivity].
    + rewrite IH. tauto.
Qed.

(** Every item the loop leaves in [files] was either there before or was
    built from an entry of the listing that no pattern excludes. *)
Lemma scan_loop_provenance realpath pats dir_path (es : list dirent) :
  forall files b files' b',
    scan_loop realpath pats dir_path es files b = Ok (files', b') ->
    forall k v, In (k, v) files' ->
      In (k, v) files \/
      exists e, In e es /\ entry_name e = k /\
                should_exclude pats (os_path_join dir_path k) = false /\
                built_from realpath pats dir_path e v.
Proof.
  induction es as [|f es IH]; intros files b files' b' Hl k v Hin.
  - injection Hl as <- <-. left. exact Hin.
  - cbn [scan_loop] in Hl. cbv zeta in Hl.
    assert (Hstep : forall v0 b1,
      scan_loop realpath pats dir_path es (dict_set files (entry_name f) v0) b1
        = Ok (files', b') ->
      should_exclude pats (os_path_join dir_path (entry_name f)) = false ->
      built_from realpath pats dir_path f v0 ->
      In (k, v) files \/
      exists e, In e (f :: es) /\ entry_name e = k /\
                should_exclude pats (os_path_join dir_path k) = false /\
                built_from realpath pats dir_path e v).
    { intros v0 b1 Hl1 Hex Hb.
      destruct (IH _ _ _ _ Hl1 k v Hin) as [Hold|(e & He & Hn & Hx & Hbf)].
      - apply dict_set_In in Hold. destruct Hold as [Hold|[-> ->]].
        + left. exact Hold.
        + right. exists f. repeat split; try assumption. left. reflexivity.
      - right. exists e. repeat split; try assumption. right. exact He. }
    destruct (should_exclude pats (os_path_join dir_path (entry_name f))) eqn:Hex.
    { destruct (IH _ _ _ _ Hl k v Hin) as [Hold|(e & He & Hn & Hx & Hbf)].
      - left. exact Hold.
      - right. exists e. repeat split; try assumption. right. exact He. }
    destruct f as [name l sub|name [|] st].
    + destruct (_path_to_dict realpath pats _ sub b) as [[d b1]|e] eqn:Ed;
        simpl in Hl; [|discriminate].
      apply (Hstep d b1 Hl eq_refl). exists b, b1. exact Ed.
    + apply (Hstep _ b Hl eq_refl). reflexivity.
    + destruct st as [sz| |]; [| |discriminate].
      * apply (Hstep _ _ Hl eq_refl). exists (offset b). reflexivity.
      * injection Hl as <- <-. left. exact Hin.
Qed.

Lemma entry_of_name (es : list dirent) (e e' : dirent) :
  NoDup (List.map entry_name es) ->
  In e es -> In e' es -> entry_name e = entry_name e' -> e = e'.
Proof.
  induction es as [|x es IH]; simpl; intros Hnd He He' Hn; [contradiction|].
  inversion Hnd as [|? ? Hx Hnd']; subst.
  destruct He as [->|He], He' as [->|He'].
  - reflexivity.
  - exfalso. apply Hx. rewrite Hn. apply in_map. exact He'.
  - exfalso. apply Hx. rewrite <- Hn. apply in_map. exact He.
  - apply IH; assumption.
Qed.





(** ** Payload assembly *)

Lemma _paths_to_bytes_concat read_file (file_paths : list str) :
  _paths_to_bytes read_file file_paths =
  concat (List.map (contribution read_file) file_paths).
Proof.
  induction file_paths as [|q l IH]; [reflexivity|].
  cbn [_paths_to_bytes List.map concat]. unfold contribution at 1.
  destruct (read_file q); rewrite IH; reflexivity.
Qed.

(** C7, as the code has it. A file of the ordered list that cannot be read
    contributes no bytes to the payload and the pack operation goes on: the
    payload is the concatenation, in list order, of the contents that could
    be read, and neither the outcome of [compress] nor the tree and base
    offset it returns depend on what the reads give. *)
Theorem C7_read_failure_is_skipped realpath pats p root read_file read_file' :
  (forall file_paths,
     _paths_to_bytes read_file file_paths =
     concat (List.map (contribution read_file) file_paths)) /\
  (forall file_path, is_ok (read_file file_path) = false ->
     contribution read_file file_path = []) /\
  match compress realpath read_file pats p root,
        compress realpath read_file' pats p root with
  | Ok a, Ok a' => header a = header a' /\ base_offset a = base_offset a'
  | Raise e, Raise e' => e = e'
  | _, _ => False
  end.
Proof.
  split; [apply _paths_to_bytes_concat|]. split.
  { intros q Hq. unfold contribution. destruct (read_file q); [discriminate|reflexivity]. }
  unfold compress.
  destruct (_path_to_dict realpath pats p root (mkBuilder 0 []))
    as [[hdr b]|e]; cbn [bind]; [|reflexivity].
  destruct (utf8_encode (dumps hdr)) as [tb|e]; cbn [bind]; [|reflexivity].
  destruct (pack_4I 4 _ _ _) as [record|e]; cbn [bind]; [|reflexivity].
  split; reflexivity.
Qed.

(** C7 as stated fails: with an unreadable [a.txt] the pack operation
    returns an archive; its payload holds the bytes of [sub/b.txt] alone,
    at position 0, while the tree still gives that file the offset 2. *)
Lemma C7_abort_counterexample :
  exists a b hdr,
    _path_to_dict no_links [] (lit "src") sample_hiyo (mkBuilder 0 [])
      = Ok (hdr, b) /\
    In (lit "src/a.txt") (paths b) /\
    sample_unreadable_read (lit "src/a.txt") = Raise PermissionError /\
    compress no_links sample_unreadable_read [] (lit "src") sample_hiyo = Ok a /\
    skipn (Z.to_nat (base_offset a)) (data (fp a)) = bytes_of_string "yo" /\
    List.map snd (packed_files (header a)) = [lit "0"; lit "2"].
Proof.
  eexists. eexists. eexists.
  split; [vm_compute; reflexivity|].
  split; [left; reflexivity|].
  split; [reflexivity|].
  split; [vm_compute; reflexivity|].
  split; vm_compute; reflexivity.
Qed.

(** ** Link targets *)

(** C8 on the code: the link [l] of [/src] points to [/src/t.txt], the
    process runs in [/work], and the tree records [/work/l]: the target is
    resolved from the name [l] alone, not from the path [/src/l] of the
    entry. *)
Theorem C8_symlink_resolved_from_cwd :
  exists a files,
    compress sample_realpath sample_link_read [] (lit "/src") sample_link = Ok a /\
    header a = dir_node files /\
    dict_get files (lit "l") = Some (link_node (lit "/work/l")) /\
    sample_realpath (os_path_join (lit "/src") (lit "l")) = lit "/src/t.txt" /\
    lit "/work/l" <> lit "/src/t.txt".
Proof.
  eexists. eexists.
  split; [vm_compute; reflexivity|].
  split; [reflexivity|].
  split; [reflexivity|].
  split; [reflexivity|].
  discriminate.
Qed.

(** In every directory, the node of a link that is not a directory holds
    [realpath] of the bare name of the entry. *)
Lemma link_target_from_name realpath pats dir_path entries b node b' name st :
  distinct (List.map entry_name entries) = true ->
  In (EOther name true st) entries ->
  _path_to_dict realpath pats dir_path (ScanOk entries) b = Ok (node, b') ->
  exists files,
    node = dir_node files /\
    forall d, dict_get files name = Some d -> d = link_node (realpath name).
Proof.
  intros Hdist Hin Hd. apply distinct_NoDup in Hdist.
  rewrite _path_to_dict_ScanOk in Hd.
  destruct (scan_loop realpath pats dir_path entries [] b)
    as [[files b1]|e] eqn:El; simpl in Hd; [|discriminate].
  injection Hd as <- <-. exists files. split; [reflexivity|].
  intros d Hg. apply dict_get_In in Hg.
  destruct (scan_loop_provenance _ _ _ _ _ _ _ _ El name d Hg)
    as [[]|(e & He & Hn & Hx & Hb)].
  assert (e = EOther name true st) as ->.
  { apply (entry_of_name entries); try assumption. }
  exact Hb.
Qed.

(** ** Key order *)

Lemma str_ltb_asym (a b : str) : str_ltb a b = true -> str_ltb b a = false.
Proof.
  revert b. induction a as [|x a IH]; intros [|y b]; simpl; try discriminate;
    try reflexivity.
  intros Hlt. apply orb_true_iff in Hlt.
  destruct Hlt as [Hlt|Hlt].
  - apply N.ltb_lt in Hlt.
    destruct (N.ltb_spec y x); [lia|]. destruct (N.eqb_spec y x); [lia|].
    reflexivity.
  - apply andb_prop in Hlt. destruct Hlt as [He Hlt].
    apply N.eqb_eq in He. subst y. rewrite N.ltb_irrefl, N.eqb_refl. simpl.
    apply IH. exact Hlt.
Qed.

Lemma str_leb_total (a b : str) : str_leb a b = false -> str_leb b a = true.
Proof.
  unfold str_leb. intros H. apply negb_false_iff in H.
  apply str_ltb_asym in H. rewrite H. reflexivity.
Qed.

Section Sorting.
Context {A : Type}.

Lemma insert_item_hd (kv x : str * A) (l : list (str * A)) :
  key_leb x kv -> HdRel key_leb x l -> HdRel key_leb x (insert_item kv l).
Proof.
  intros Hx Hl. destruct l as [|y l]; simpl.
  - constructor. exact Hx.
  - destruct (str_leb (fst kv) (fst y)); constructor; [exact Hx|].
    inversion Hl; assumption.
Qed.

Lemma insert_item_sorted (kv : str * A) (l : list (str * A)) :
  Sorted key_leb l -> Sorted key_leb (insert_item kv l).
Proof.
  induction 1 as [|x l Hs IH Hhd]; simpl.
  - constructor; constructor.
  - destruct (str_leb (fst kv) (fst x)) eqn:E.
    + constructor; [constructor; assumption|]. constructor. exact E.
    + constructor; [exact IH|].
      apply insert_item_hd; [|exact Hhd].
      apply str_leb_total. exact E.
Qed.

Lemma sort_items_sorted (l : list (str * A)) : Sorted key_leb (sort_items l).
Proof.
  induction l as [|kv l IH]; simpl; [constructor|].
  apply insert_item_sorted. exact IH.
Qed.

Lemma insert_item_perm (kv : str * A) (l : list (str * A)) :
  Permutation (kv :: l) (insert_item kv l).
Proof.
  induction l as [|x l IH]; simpl; [reflexivity|].
  destruct (str_leb (fst kv) (fst x)); [reflexivity|].
  rewrite perm_swap. constructor. exact IH.
Qed.

Lemma sort_items_perm (l : list (str * A)) : Permutation l (sort_items l).
Proof.
  induction l as [|kv l IH]; simpl; [constructor|].
  rewrite <- insert_item_perm. constructor. exact IH.
Qed.
End Sorting.

Lemma sort_items_map {A B : Type} (f : A -> B) (l : list (str * A)) :
  sort_items (List.map (fun kv => (fst kv, f (snd kv))) l) =
  List.map (fun kv => (fst kv, f (snd kv))) (sort_items l).
Proof.
  induction l as [|kv l IH]; [reflexivity|].
  cbn [List.map sort_items fold_right].
  change (fold_right insert_item [] (List.map (fun kv => (fst kv, f (snd kv))) l))
    with (sort_items (List.map (fun kv => (fst kv, f (snd kv))) l)).
  change (fold_right insert_item [] l) with (sort_items l).
  rewrite IH. generalize (sort_items l). intros s.
  induction s as [|x s IHs]; [reflexivity|].
  cbn [insert_item List.map fst]. destruct (str_leb (fst kv) (fst x)).
  - reflexivity.
  - cbn [List.map]. rewrite IHs. reflexivity.
Qed.

Lemma dumps_JDict (items : dict) :
  dumps (JDict items) =
  lit "{" ++
  join (lit ",")
    (List.map (fun kv => encode_basestring_ascii (fst kv) ++ lit ":" ++ dumps (snd kv))
       (sort_items items))
  ++ lit "}".
Proof.
  cbn [dumps]. rewrite (sort_items_map dumps), map_map. reflexivity.
Qed.

(** C4, as the code has it. The serialized tree description renders the
    entries of every dictionary in the order of their keys (the code point
    order of [sorted]), whatever the order of insertion: the rendered
    entries are those of [sort_items], a rearrangement of the dictionary
    that is ordered by key. *)
Theorem C4_entries_in_key_order (items : dict) :
  dumps (JDict items) =
  lit "{" ++
  join (lit ",")
    (List.map (fun kv => encode_basestring_ascii (fst kv) ++ lit ":" ++ dumps (snd kv))
       (sort_items items))
  ++ lit "}" /\
  Sorted key_leb (sort_items items) /\
  Permutation items (sort_items items).
Proof.
  split; [apply dumps_JDict|]. split.
  - apply sort_items_sorted.
  - apply sort_items_perm.
Qed.

(** C4 as stated fails: a directory scanned as [b], [a] is serialized with
    [a] before [b], which is not the rendering in insertion order. *)
Lemma C4_insertion_order_counterexample :
  exists a,
    compress no_links sample_b_then_a_read [] (lit "src") sample_b_then_a = Ok a /\
    header a =
      dir_node [(lit "b", file_node 1 (lit "0")); (lit "a", file_node 1 (lit "1"))] /\
    dumps (header a) =
      dumps_insertion_order
        (dir_node [(lit "a", JDict [(k_offset, JStr (lit "1")); (k_size, JInt 1)]);
                   (lit "b", JDict [(k_offset, JStr (lit "0")); (k_size, JInt 1)])]) /\
    dumps (header a) <> dumps_insertion_order (header a).
Proof.
  eexists. split; [vm_compute; reflexivity|].
  split; [reflexivity|]. split; [reflexivity|].
  cbn [header]. vm_compute. discriminate.
Qed.

(** ** Trees *)

Lemma with_item_dict {A : Type} (d : dict) (k : str) (on_error : exn -> A)
  (f : json -> A) :
  with_item (JDict d) k on_error f =
  match dict_get d k with
  | Some v => f v
  | None => on_error KeyError
  end.
Proof.
  cbn [with_item].
  induction d as [|[k' v] d IH]; [reflexivity|].
  cbn [dict_get]. destruct (str_eqb k' k); [reflexivity | exact IH].
Qed.


Lemma is_tree_all (items : dict) :
  (fix all (items : dict) : bool :=
     match items with
     | [] => true
     | (_, info) :: rest => is_tree_node info && all rest
     end) items = forallb (fun kv => is_tree_node (snd kv)) items.
Proof.
  induction items as [|[k v] items IH]; [reflexivity|].
  cbn [forallb snd]. rewrite IH. reflexivity.
Qed.

Lemma is_tree_node_dict (node : json) :
  is_tree_node node = true -> exists d, node = JDict d.
Proof. destruct node; try discriminate. intros _. eexists. reflexivity. Qed.

Lemma is_tree_node_files (d : dict) (sub : json) :
  is_tree_node (JDict d) = true ->
  dict_get d k_files = Some sub ->
  is_tree_files sub = true.
Proof.
  intros Ht Hg. cbn [is_tree_node] in Ht.
  unfold dict_mem in Ht. rewrite with_item_dict, Hg in Ht.
  destruct sub as [| | | | |items]; try discriminate Ht.
  rewrite is_tree_all in Ht. exact Ht.
Qed.


Lemma dir_node_is_tree (files : dict) :
  is_tree_node (dir_node files) = is_tree_files (JDict files).
Proof.
  unfold dir_node. cbn -[forallb]. apply is_tree_all.
Qed.

(** ** [extract_file] *)






(** The other two cases on the same archive: a path through a [File] node,
    and a path that ends on a [Directory]. *)
Example extract_file_through_file :
  extract_file sample_one_dir (lit "sub/b.txt/x") = Raise FileNotFoundError.
Proof. reflexivity. Qed.

Example extract_file_on_directory :
  extract_file sample_one_dir (lit "sub") = Raise FileNotFoundError.
Proof. reflexivity. Qed.

Example extract_file_found :
  extract_file sample_one_dir (lit "sub/b.txt") = Ok (bytes_of_string "yo").
Proof. reflexivity. Qed.


(** ** [list_files] and [get_file_info] *)

Lemma _walk_files_JDict (items : dict) (current_path : str) :
  _walk_files (JDict items) current_path = walk_items items current_path.
Proof.
  cbn [_walk_files].
  induction items as [|[name info] rest IH]; [reflexivity|].
  cbn [walk_items]. cbv zeta. rewrite <- IH. reflexivity.
Qed.

Lemma count_go_sum (f : json -> nat) (items : dict) :
  (fix go (items : dict) : nat :=
     match items with
     | [] => O
     | (_, info) :: rest => (f info + go rest)%nat
     end) items = sum_over f items.
Proof.
  induction items as [|[k v] items IH]; [reflexivity|].
  cbn [sum_over fold_right snd]. rewrite IH. reflexivity.
Qed.

Lemma count_leaves_directory (d : dict) (sub : json) :
  dict_get d k_files = Some sub ->
  count_leaves (JDict d) = leaves_in sub.
Proof.
  intros Hg. cbn [count_leaves]. unfold dict_mem.
  rewrite with_item_dict, Hg.
  destruct sub; try reflexivity. apply count_go_sum.
Qed.

Lemma count_directories_directory (d : dict) (sub : json) :
  dict_get d k_files = Some sub ->
  count_directories (JDict d) = S (directories_in sub).
Proof.
  intros Hg. cbn [count_directories]. unfold dict_mem.
  rewrite with_item_dict, Hg.
  destruct sub; try reflexivity. cbn [directories_in]. f_equal.
  apply count_go_sum.
Qed.

Lemma count_leaf (d : dict) :
  dict_get d k_files = None ->
  count_leaves (JDict d) = 1%nat /\ count_directories (JDict d) = O.
Proof.
  intros Hg. cbn [count_leaves count_directories]. unfold dict_mem.
  rewrite Hg. split; reflexivity.
Qed.


Lemma walk_files_count (j : json) :
  (forall d sub, j = JDict d -> dict_get d k_files = Some sub ->
     walk_lists_all sub) /\
  walk_lists_all j.
Proof.
  induction j as [| | | | |items IH] using json_nested_ind;
    try (split; [discriminate | intros Hf; discriminate Hf]).
  split.
  - intros d sub [= <-] Hg. apply dict_get_In in Hg.
    rewrite Forall_forall in IH. exact (proj2 (IH _ Hg)).
  - intros Hf current_path. rewrite _walk_files_JDict.
    cbn [is_tree_files] in Hf. cbn [entries_in].
    induction items as [|[name info] rest IHr].
    + exists []. split; reflexivity.
    + inversion IH as [|? ? [Hinfo _] IHrest]; subst.
      cbn [forallb snd] in Hf. apply andb_prop in Hf. destruct Hf as [Hn Hf].
      destruct (IHr IHrest Hf) as (after & Hafter & Hlen).
      destruct (is_tree_node_dict _ Hn) as (d & ->).
      cbn [walk_items py_in bind]. cbv zeta. rewrite Hafter.
      cbn [sum_over fold_right snd].
      change (fold_right (fun kv acc => (count_leaves (snd kv) + acc)%nat) O rest)
        with (sum_over count_leaves rest).
      change (fold_right (fun kv acc => (count_directories (snd kv) + acc)%nat) O rest)
        with (sum_over count_directories rest).
      unfold dict_mem. rewrite with_item_dict.
      destruct (dict_get d k_files) as [sub|] eqn:Es.
      * pose proof (is_tree_node_files _ _ Hn Es) as Hs.
        destruct (Hinfo d sub eq_refl Es Hs
                    (replace_char ch_backslash ch_slash
                       (os_path_join current_path name)))
          as (below & -> & Hb).
        cbn [bind]. eexists. split; [reflexivity|].
        rewrite (count_leaves_directory _ _ Es),
          (count_directories_directory _ _ Es).
        cbn [app]. rewrite length_cons, length_app.
        rewrite Hlen, Hb.
        unfold entries_in, leaves_in, directories_in.
        destruct sub; lia.
      * cbn [bind]. eexists. split; [reflexivity|].
        destruct (count_leaf _ Es) as [-> ->].
        cbn [app]. rewrite length_cons.
        rewrite Hlen. lia.
Qed.

Lemma filter_all_prefix (l : list str) :
  filter (fun f => startswith f []) l = l.
Proof.
  induction l as [|x l IH]; [reflexivity|].
  cbn [filter startswith]. f_equal. exact IH.
Qed.

(** C9, as the code has it. On an archive whose header is a tree,
    [get_file_info] returns as [file_count] the number of entries that
    [list_files] lists: one for every [File] and [Symlink] leaf and one for
    every [Directory] below the root. *)
Theorem C9_file_count_counts_directories (a : Asar) (files_dict : json) :
  py_getitem (header a) k_files = Ok files_dict ->
  is_tree_files files_dict = true ->
  exists info,
    get_file_info a = Ok info /\
    file_count info =
      Z.of_nat (leaves_in files_dict) + Z.of_nat (directories_in files_dict).
Proof.
  intros Hh Hf. unfold get_file_info, list_files. rewrite Hh. cbn [bind].
  destruct (proj2 (walk_files_count files_dict) Hf []) as (l & -> & Hlen).
  cbn [bind]. eexists. split; [reflexivity|]. cbn [file_count].
  rewrite filter_all_prefix, Hlen.
  destruct files_dict; cbn [entries_in leaves_in directories_in]; lia.
Qed.

Lemma C9_file_count_counts_directories_witness :
  exists info,
    py_getitem (header sample_one_dir) k_files
      = Ok (JDict [(lit "sub", dir_node [(lit "b.txt", file_node 2 (lit "0"))])]) /\
    get_file_info sample_one_dir = Ok info /\
    file_count info = 1 + 1.
Proof.
  destruct (C9_file_count_counts_directories sample_one_dir
              (JDict [(lit "sub", dir_node [(lit "b.txt", file_node 2 (lit "0"))])])
              eq_refl eq_refl) as (info & Hi & Hc).
  exists info. split; [reflexivity|]. split; [exact Hi | exact Hc].
Defined.


(** C9 as stated fails: for a tree with one directory that holds one file,
    [file_count] is 2 while the tree has one leaf. *)
Lemma C9_leaves_only_counterexample :
  exists info files_dict,
    py_getitem (header sample_one_dir) k_files = Ok files_dict /\
    is_tree_files files_dict = true /\
    get_file_info sample_one_dir = Ok info /\
    leaves_in files_dict = 1%nat /\
    file_count info = 2 /\
    file_count info <> Z.of_nat (leaves_in files_dict).
Proof.
  eexists. eexists.
  split; [reflexivity|]. split; [reflexivity|]. split; [reflexivity|].
  split; [reflexivity|]. split; [reflexivity|]. vm_compute. discriminate.
Qed.

(** ** [extract] *)

(** C6. When the destination exists, [extract] raises [FileExistsError]
    and the file system is left as it was: nothing is created or changed
    before the failure. *)
Theorem C6_existing_destination_untouched
  {world : Type} {FS : FileSystem world} (a : Asar) (dest : str) (w : world) :
  os_path_exists dest w = true ->
  extract a dest w = (Raise FileExistsError, w).
Proof.
  intros Hex. unfold extract, io_bind, test. rewrite Hex. reflexivity.
Qed.

Lemma C6_existing_destination_untouched_witness :
  os_path_exists (lit "out") sample_occupied = true /\
  extract sample_one_dir (lit "out") sample_occupied
    = (Raise FileExistsError, sample_occupied).
Proof.
  split; [reflexivity|].
  apply C6_existing_destination_untouched. reflexivity.
Defined.

(** On a fresh destination the sample archive is written out. *)
Example extract_sample_one_dir :
  extract sample_one_dir (lit "out") [] =
  (Ok tt,
   [(lit "out", FsDir); (lit "out/sub", FsDir);
    (lit "out/sub/b.txt", FsFile (bytes_of_string "yo"))]).
Proof. vm_compute. reflexivity. Qed.

(** ** Decimal numbers *)


Lemma take_digits_app (ds rest : str) :
  forallb is_digit ds = true ->
  starts_with_digit rest = false ->
  forall acc, take_digits acc (ds ++ rest) = (horner acc ds, rest).
Proof.
  intros Hd Hr. induction ds as [|c ds IH]; intros acc.
  - cbn [app horner]. destruct rest as [|c rest]; [reflexivity|].
    cbn [take_digits]. cbn [starts_with_digit] in Hr. rewrite Hr. reflexivity.
  - cbn [forallb] in Hd. apply andb_prop in Hd. destruct Hd as [Hc Hd].
    cbn [app take_digits horner]. rewrite Hc. apply IH. exact Hd.
Qed.

Lemma horner_app (a b : str) (acc : N) :
  horner acc (a ++ b) = horner (horner acc a) b.
Proof.
  revert acc. induction a as [|c a IH]; intros acc; [reflexivity|].
  cbn [app horner]. apply IH.
Qed.

Lemma digits_fuel_acc (fuel : nat) :
  forall n acc, digits_fuel fuel n acc = digits_fuel fuel n [] ++ acc.
Proof.
  induction fuel as [|f IH]; intros n acc; [reflexivity|].
  cbn [digits_fuel]. destruct (n <? 10)%N; [reflexivity|].
  rewrite IH. rewrite (IH _ [_]). rewrite <- app_assoc. reflexivity.
Qed.

Lemma is_digit_digit_char (d : N) : (d < 10)%N -> is_digit (digit_char d) = true.
Proof.
  intros Hd. unfold is_digit, digit_char.
  apply andb_true_iff. split; apply N.leb_le; lia.
Qed.

Lemma digits_fuel_spec (fuel : nat) :
  forall n, (n < 2 ^ N.of_nat fuel)%N ->
    forallb is_digit (digits_fuel fuel n []) = true /\
    horner 0 (digits_fuel fuel n []) = n /\
    (0 < n -> exists c tl, digits_fuel fuel n [] = c :: tl /\ c <> 48)%N.
Proof.
  induction fuel as [|f IH]; intros n Hn.
  - cbn in Hn. assert (n = 0)%N as -> by lia.
    repeat split; try reflexivity. lia.
  - cbn [digits_fuel].
    assert (Hm : (n mod 10 < 10)%N) by (apply N.mod_lt; lia).
    destruct (N.ltb_spec n 10) as [Hlt|Hge].
    + rewrite N.mod_small by lia. repeat split.
      * cbn [forallb]. rewrite is_digit_digit_char by lia. reflexivity.
      * cbn [horner]. unfold digit_char. lia.
      * intros Hpos. exists (digit_char n), []. split; [reflexivity|].
        unfold digit_char. lia.
    + assert (Hdiv : (n / 10 < 2 ^ N.of_nat f)%N).
      { rewrite Nat2N.inj_succ, N.pow_succ_r' in Hn.
        apply N.Div0.div_lt_upper_bound. lia. }
      assert (Hq : (0 < n / 10)%N).
      { zify. Z.to_euclidean_division_equations. lia. }
      destruct (IH _ Hdiv) as (Hd & Hh & Hhd).
      rewrite digits_fuel_acc. repeat split.
      * rewrite forallb_app, Hd. cbn [forallb].
        rewrite is_digit_digit_char by lia. reflexivity.
      * rewrite horner_app, Hh. cbn [horner]. unfold digit_char.
        zify. Z.to_euclidean_division_equations. lia.
      * intros _.
        destruct (Hhd Hq) as (c & tl & -> & Hc).
        exists c, (tl ++ [digit_char (n mod 10)]). split; [reflexivity|exact Hc].
Qed.

Lemma str_of_N_spec (n : N) :
  forallb is_digit (str_of_N n) = true /\
  horner 0 (str_of_N n) = n /\
  (0 < n -> exists c tl, str_of_N n = c :: tl /\ c <> 48)%N.
Proof.
  apply digits_fuel_spec.
  destruct (N.eq_dec n 0) as [->|Hnz]; [reflexivity|].
  rewrite Nat2N.inj_succ, N2Nat.id.
  apply N.log2_spec. lia.
Qed.

Lemma str_of_N_0 : str_of_N 0 = [48%N].
Proof. reflexivity. Qed.

Lemma match_unsigned_str_of_N (n : N) (neg : bool) (rest : str) :
  starts_with_digit rest = false ->
  float_tail rest = false ->
  (neg = true -> 0 < n)%N ->
  match_unsigned neg (str_of_N n ++ rest) =
  Some (Ok (if neg then - Z.of_N n else Z.of_N n, rest)).
Proof.
  intros Hr Hf Hneg. unfold match_unsigned.
  destruct (str_of_N_spec n) as (Hd & Hh & Hhd).
  destruct (N.eq_dec n 0) as [->|Hnz].
  - rewrite str_of_N_0. cbn [app]. rewrite N.eqb_refl, Hf.
    destruct neg; [|reflexivity]. specialize (Hneg eq_refl). lia.
  - destruct (Hhd ltac:(lia)) as (c & tl & E & Hc). rewrite E in *.
    cbn [app]. cbn [forallb] in Hd. apply andb_prop in Hd.
    destruct Hd as [Hdc Hdt]. cbn [horner] in Hh.
    destruct (N.eqb_spec c 48) as [|_]; [contradiction|].
    rewrite Hdc, (take_digits_app tl rest Hdt Hr).
    rewrite N.mul_0_l, N.add_0_l in Hh. rewrite Hh, Hf. reflexivity.
Qed.

(** What the scanner reads back from the decimal text of an integer. *)
Lemma match_number_str_of_Z (z : Z) (rest : str) :
  starts_with_digit rest = false ->
  float_tail rest = false ->
  match_number (str_of_Z z ++ rest) = Some (Ok (z, rest)).
Proof.
  intros Hr Hf. unfold str_of_Z, match_number.
  destruct (Z.ltb_spec z 0) as [Hneg|Hpos].
  - cbn [app]. change (ch_minus =? 45)%N with true. cbv iota.
    rewrite (match_unsigned_str_of_N _ true rest Hr Hf) by lia.
    rewrite Z2N.id by lia. rewrite Z.opp_involutive. reflexivity.
  - pose proof (match_unsigned_str_of_N (Z.to_N z) false rest Hr Hf
                  ltac:(discriminate)) as H.
    destruct (str_of_N_spec (Z.to_N z)) as (Hd & _ & Hhd).
    destruct (str_of_N (Z.to_N z)) as [|c tl] eqn:E.
    + exfalso. destruct (N.eq_dec (Z.to_N z) 0) as [H0|Hnz].
      * rewrite H0 in E. discriminate.
      * destruct (Hhd ltac:(lia)) as (? & ? & ? & _). discriminate.
    + cbn [app] in *. cbn [forallb] in Hd. apply andb_prop in Hd.
      destruct Hd as [Hdc _].
      destruct (N.eqb_spec c 45) as [->|_]; [discriminate Hdc|].
      rewrite H. rewrite Z2N.id by lia. reflexivity.
Qed.

(** ** Strings read back by the decoder *)

Lemma hex_val_hex_char (d : N) : (d < 16)%N -> hex_val (hex_char d) = Some d.
Proof.
  intros Hd. unfold hex_char, hex_val.
  destruct (N.ltb_spec d 10).
  - assert (E1 : ((48 <=? 48 + d) && (48 + d <=? 57) = true)%N).
    { apply andb_true_iff. split; apply N.leb_le; lia. }
    rewrite E1. f_equal. lia.
  - assert (E1 : ((48 <=? 87 + d) && (87 + d <=? 57) = false)%N).
    { apply andb_false_iff. right. apply N.leb_gt. lia. }
    assert (E2 : ((97 <=? 87 + d) && (87 + d <=? 102) = true)%N).
    { apply andb_true_iff. split; apply N.leb_le; lia. }
    rewrite E1, E2. f_equal. lia.
Qed.

Lemma hex4_digits (c : N) :
  (c < 65536)%N ->
  hex4 (hex_char (N.shiftr c 12 mod 16)) (hex_char (N.shiftr c 8 mod 16))
       (hex_char (N.shiftr c 4 mod 16)) (hex_char (c mod 16)) = Some c.
Proof.
  intros Hc. unfold hex4.
  rewrite !hex_val_hex_char by (apply N.mod_lt; lia).
  f_equal. rewrite !N.shiftr_div_pow2.
  change (2 ^ 12)%N with 4096%N. change (2 ^ 8)%N with 256%N.
  change (2 ^ 4)%N with 16%N.
  zify. Z.to_euclidean_division_equations. lia.
Qed.


Lemma scanstring_quote (s : str) : scanstring (34%N :: s) = Ok ([], s).
Proof. reflexivity. Qed.

Lemma scanstring_plain (c : char) (s : str) :
  (32 <= c)%N -> c <> 34%N -> c <> 92%N ->
  scanstring (c :: s) = cons_fst c (scanstring s).
Proof.
  intros H1 H2 H3. cbn [scanstring].
  destruct (N.eqb_spec c 34); [contradiction|].
  destruct (N.ltb_spec c 32); [lia|].
  destruct (N.eqb_spec c 92); [contradiction|]. reflexivity.
Qed.

Lemma scanstring_backslash (esc ch : char) (s : str) :
  esc <> 117%N -> backslash_char esc = Some ch ->
  scanstring (92%N :: esc :: s) = cons_fst ch (scanstring s).
Proof.
  intros H1 H2. cbn [scanstring].
  change (92 =? 34)%N with false. change (92 <? 32)%N with false.
  change (92 =? 92)%N with true. cbn [negb].
  destruct (N.eqb_spec esc 117); [contradiction|]. cbn [negb].
  rewrite H2. reflexivity.
Qed.

Lemma scanstring_u (h1 h2 h3 h4 : char) (uni : N) (s3 : str) :
  hex4 h1 h2 h3 h4 = Some uni ->
  (is_high_surrogate uni = true -> safe_after_high s3 = true) ->
  scanstring (92%N :: 117%N :: h1 :: h2 :: h3 :: h4 :: s3) =
  cons_fst uni (scanstring s3).
Proof.
  intros Hh Hsafe. cbn [scanstring].
  change (92 =? 34)%N with false. change (92 <? 32)%N with false.
  change (92 =? 92)%N with true. change (117 =? 117)%N with true. cbn [negb].
  rewrite Hh.
  destruct s3 as [|b [|u s4]]; try reflexivity.
  destruct (is_high_surrogate uni) eqn:Eh; [|reflexivity].
  specialize (Hsafe eq_refl). cbn [safe_after_high] in Hsafe.
  cbn [andb].
  destruct ((b =? 92)%N && (u =? 117)%N) eqn:Ebu.
  - clear Ebu.
    destruct s4 as [|g1 [|g2 [|g3 [|g4 s5]]]]; try discriminate Hsafe.
    destruct (hex4 g1 g2 g3 g4) as [uni2|]; [|discriminate Hsafe].
    apply negb_true_iff in Hsafe. rewrite Hsafe. reflexivity.
  - reflexivity.
Qed.

Lemma scanstring_pair (h1 h2 h3 h4 g1 g2 g3 g4 : char) (u1 u2 : N) (s5 : str) :
  hex4 h1 h2 h3 h4 = Some u1 -> is_high_surrogate u1 = true ->
  hex4 g1 g2 g3 g4 = Some u2 -> is_low_surrogate u2 = true ->
  scanstring (92%N :: 117%N :: h1 :: h2 :: h3 :: h4 ::
              92%N :: 117%N :: g1 :: g2 :: g3 :: g4 :: s5) =
  cons_fst (65536 + N.lor (N.shiftl (u1 - 55296) 10) (u2 - 56320))%N
    (scanstring s5).
Proof.
  intros Hh Hhi Hg Hlo. cbn [scanstring].
  change (92 =? 34)%N with false. change (92 <? 32)%N with false.
  change (92 =? 92)%N with true. change (117 =? 117)%N with true. cbn [negb].
  rewrite Hh, Hhi. cbn [andb]. rewrite Hg, Hlo. reflexivity.
Qed.

Lemma land_shiftl_low (a b k : N) :
  (b < 2 ^ k)%N -> N.land (N.shiftl a k) b = 0%N.
Proof.
  intros Hb. apply N.bits_inj. intros i.
  rewrite N.land_spec, N.bits_0.
  destruct (N.ltb_spec i k) as [Hlt|Hge].
  - rewrite N.shiftl_spec_low by exact Hlt. reflexivity.
  - destruct (N.eq_dec b 0) as [->|Hnz].
    + rewrite N.bits_0. apply andb_false_r.
    + rewrite (N.bits_above_log2 b i); [apply andb_false_r|].
      apply N.lt_le_trans with k; [|exact Hge].
      apply N.log2_lt_pow2; [lia | exact Hb].
Qed.

Lemma lor_shiftl_low (a b k : N) :
  (b < 2 ^ k)%N -> N.lor (N.shiftl a k) b = (a * 2 ^ k + b)%N.
Proof.
  intros Hb. pose proof (land_shiftl_low a b k Hb) as Hl.
  rewrite <- N.lxor_lor, <- N.add_nocarry_lxor by exact Hl.
  rewrite N.shiftl_mul_pow2. reflexivity.
Qed.

Lemma surrogates_of (c : N) :
  (65536 <= c < 1114112)%N ->
  let n := (c - 65536)%N in
  let s1 := N.lor 55296 (N.land (N.shiftr n 10) 1023) in
  let s2 := N.lor 56320 (N.land n 1023) in
  (55296 <= s1 <= 56319)%N /\ (56320 <= s2 <= 57343)%N /\
  (65536 + N.lor (N.shiftl (s1 - 55296) 10) (s2 - 56320))%N = c.
Proof.
  intros Hc n s1 s2.
  remember (n / 1024)%N as q eqn:Eq.
  remember (n mod 1024)%N as r eqn:Er.
  assert (Hn : (n = q * 1024 + r /\ q < 1024 /\ r < 1024)%N).
  { subst q r n. zify. Z.to_euclidean_division_equations. lia. }
  destruct Hn as (Hn & Hq & Hr).
  assert (E1 : s1 = (55296 + q)%N).
  { subst s1. change 1023%N with (N.ones 10). rewrite N.land_ones.
    rewrite N.shiftr_div_pow2. change (2 ^ 10)%N with 1024%N.
    rewrite <- Eq. rewrite (N.mod_small q 1024) by exact Hq.
    change 55296%N with (N.shiftl 54 10).
    rewrite lor_shiftl_low by (change (2 ^ 10)%N with 1024%N; exact Hq).
    reflexivity. }
  assert (E2 : s2 = (56320 + r)%N).
  { subst s2. change 1023%N with (N.ones 10). rewrite N.land_ones.
    change (2 ^ 10)%N with 1024%N. rewrite <- Er.
    change 56320%N with (N.shiftl 55 10).
    rewrite lor_shiftl_low by (change (2 ^ 10)%N with 1024%N; exact Hr).
    reflexivity. }
  split; [lia|]. split; [lia|].
  rewrite E1, E2.
  replace (55296 + q - 55296)%N with q by lia.
  replace (56320 + r - 56320)%N with r by lia.
  rewrite lor_shiftl_low by (change (2 ^ 10)%N with 1024%N; exact Hr).
  change (2 ^ 10)%N with 1024%N. subst n. lia.
Qed.

Lemma u_escape_cons (n : N) :
  u_escape n =
  92%N :: 117%N :: hex_char (N.shiftr n 12 mod 16) ::
    hex_char (N.shiftr n 8 mod 16) :: hex_char (N.shiftr n 4 mod 16) ::
    [hex_char (n mod 16)].
Proof. reflexivity. Qed.

Lemma scan_escape_char (c : char) (tail : str) :
  is_code_point c = true ->
  (is_high_surrogate c = true -> safe_after_high tail = true) ->
  scanstring (escape_char c ++ tail) = cons_fst c (scanstring tail).
Proof.
  intros Hcp Hsafe. unfold is_code_point in Hcp. apply N.ltb_lt in Hcp.
  unfold escape_char.
  destruct (N.eqb_spec c 92) as [->|H92];
    [apply scanstring_backslash; [discriminate | reflexivity]|].
  destruct (N.eqb_spec c 34) as [->|H34];
    [apply scanstring_backslash; [discriminate | reflexivity]|].
  destruct (N.leb_spec 32 c) as [H32|H32]; cbn [andb].
  - destruct (N.leb_spec c 126) as [H126|H126].
    + apply scanstring_plain; assumption.
    + assert (c <> 8 /\ c <> 12 /\ c <> 10 /\ c <> 13 /\ c <> 9)%N
        as (N8 & N12 & N10 & N13 & N9) by lia.
      destruct (N.eqb_spec c 8); [contradiction|].
      destruct (N.eqb_spec c 12); [contradiction|].
      destruct (N.eqb_spec c 10); [contradiction|].
      destruct (N.eqb_spec c 13); [contradiction|].
      destruct (N.eqb_spec c 9); [contradiction|].
      destruct (N.ltb_spec c 65536) as [Hbmp|Hsup].
      * rewrite u_escape_cons. cbn [app].
        apply scanstring_u; [apply hex4_digits; exact Hbmp | exact Hsafe].
      * pose proof (surrogates_of c ltac:(lia)) as Hs. cbv zeta in Hs.
        set (s1 := N.lor 55296 (N.land (N.shiftr (c - 65536) 10) 1023)) in *.
        set (s2 := N.lor 56320 (N.land (c - 65536) 1023)) in *.
        destruct Hs as (E1 & E2 & Hc).
        rewrite !u_escape_cons. cbn [app].
        clearbody s1 s2.
        rewrite (scanstring_pair _ _ _ _ _ _ _ _ s1 s2 tail).
        -- rewrite Hc. reflexivity.
        -- apply hex4_digits. lia.
        -- unfold is_high_surrogate.
           apply andb_true_iff. split; apply N.leb_le; lia.
        -- apply hex4_digits. lia.
        -- unfold is_low_surrogate.
           apply andb_true_iff. split; apply N.leb_le; lia.
  - destruct (N.eqb_spec c 8) as [->|N8];
      [apply scanstring_backslash; [discriminate | reflexivity]|].
    destruct (N.eqb_spec c 12) as [->|N12];
      [apply scanstring_backslash; [discriminate | reflexivity]|].
    destruct (N.eqb_spec c 10) as [->|N10];
      [apply scanstring_backslash; [discriminate | reflexivity]|].
    destruct (N.eqb_spec c 13) as [->|N13];
      [apply scanstring_backslash; [discriminate | reflexivity]|].
    destruct (N.eqb_spec c 9) as [->|N9];
      [apply scanstring_backslash; [discriminate | reflexivity]|].
    destruct (N.ltb_spec c 65536) as [Hbmp|Hsup]; [|lia].
    rewrite u_escape_cons. cbn [app].
    apply scanstring_u; [apply hex4_digits; exact Hbmp | exact Hsafe].
Qed.

Lemma safe_after_quote (rest : str) : safe_after_high (34%N :: rest) = true.
Proof. destruct rest; reflexivity. Qed.

Lemma safe_after_u (n : N) (tail : str) :
  (n < 65536)%N -> is_low_surrogate n = false ->
  safe_after_high (u_escape n ++ tail) = true.
Proof.
  intros Hn Hlow. rewrite u_escape_cons. cbn [app safe_after_high].
  change ((92 =? 92)%N && (117 =? 117)%N) with true. cbv iota.
  rewrite hex4_digits by exact Hn. rewrite Hlow. reflexivity.
Qed.

Lemma safe_after_escape (c : char) (tail : str) :
  is_code_point c = true -> is_low_surrogate c = false ->
  safe_after_high (escape_char c ++ tail) = true.
Proof.
  intros Hcp Hlow. unfold is_code_point in Hcp. apply N.ltb_lt in Hcp.
  unfold escape_char.
  destruct (N.eqb_spec c 92) as [->|H92]; [reflexivity|].
  destruct (N.eqb_spec c 34) as [->|H34]; [reflexivity|].
  destruct ((32 <=? c) && (c <=? 126))%N.
  { cbn [app safe_after_high]. destruct tail as [|u s4]; [reflexivity|].
    destruct (N.eqb_spec c 92); [contradiction|]. reflexivity. }
  destruct (N.eqb_spec c 8) as [->|N8]; [reflexivity|].
  destruct (N.eqb_spec c 12) as [->|N12]; [reflexivity|].
  destruct (N.eqb_spec c 10) as [->|N10]; [reflexivity|].
  destruct (N.eqb_spec c 13) as [->|N13]; [reflexivity|].
  destruct (N.eqb_spec c 9) as [->|N9]; [reflexivity|].
  destruct (N.ltb_spec c 65536) as [Hbmp|Hsup].
  - apply safe_after_u; assumption.
  - pose proof (surrogates_of c ltac:(lia)) as Hs. cbv zeta in Hs.
    destruct Hs as (E1 & _ & _). rewrite <- app_assoc.
    apply safe_after_u; [lia|].
    unfold is_low_surrogate. apply andb_false_iff. left. apply N.leb_gt. lia.
Qed.

Lemma scanstring_encoded (s rest : str) :
  wf_str s = true ->
  scanstring (flat_map escape_char s ++ 34%N :: rest) = Ok (s, rest).
Proof.
  unfold wf_str. intros Hwf. apply andb_prop in Hwf. destruct Hwf as [Hcp Hns].
  induction s as [|c s IH]; [reflexivity|].
  cbn [forallb] in Hcp. apply andb_prop in Hcp. destruct Hcp as [Hc Hcp].
  cbn [no_split_pair] in Hns. apply andb_prop in Hns. destruct Hns as [Hpair Hns].
  cbn [flat_map]. rewrite <- app_assoc.
  rewrite scan_escape_char; [rewrite (IH Hcp Hns); reflexivity | exact Hc |].
  intros Hhigh. destruct s as [|c' s'].
  - apply safe_after_quote.
  - cbn [flat_map]. rewrite <- app_assoc.
    cbn [forallb] in Hcp. apply andb_prop in Hcp.
    apply safe_after_escape; [tauto|].
    rewrite Hhigh in Hpair. cbn [andb] in Hpair.
    apply negb_true_iff in Hpair. exact Hpair.
Qed.

Lemma scanstring_encode_basestring (s rest : str) :
  wf_str s = true ->
  exists body,
    encode_basestring_ascii s ++ rest = 34%N :: body /\
    scanstring body = Ok (s, rest).
Proof.
  intros Hwf. exists (flat_map escape_char s ++ 34%N :: rest). split.
  - unfold encode_basestring_ascii. cbn [app]. rewrite <- app_assoc. reflexivity.
  - apply scanstring_encoded. exact Hwf.
Qed.

(** *** The text is ASCII *)


Lemma hex_char_ascii (d : N) : (d < 16)%N -> is_ascii (hex_char d) = true.
Proof.
  intros Hd. unfold is_ascii, hex_char. apply N.ltb_lt.
  destruct (d <? 10)%N; lia.
Qed.

Lemma u_escape_ascii (n : N) : forallb is_ascii (u_escape n) = true.
Proof.
  rewrite u_escape_cons. cbn [forallb].
  rewrite !hex_char_ascii by (apply N.mod_lt; lia). reflexivity.
Qed.

Lemma escape_char_ascii (c : char) : forallb is_ascii (escape_char c) = true.
Proof.
  unfold escape_char.
  destruct (c =? 92)%N; [reflexivity|].
  destruct (c =? 34)%N; [reflexivity|].
  destruct (N.leb_spec 32 c); cbn [andb].
  - destruct (N.leb_spec c 126).
    + cbn [forallb]. unfold is_ascii.
      destruct (N.ltb_spec c 128); [reflexivity | lia].
    + repeat match goal with
             | |- context [if ?b then _ else _] => destruct b; try reflexivity
             end;
      rewrite ?forallb_app, ?u_escape_ascii; reflexivity.
  - repeat match goal with
           | |- context [if ?b then _ else _] => destruct b; try reflexivity
           end;
    rewrite ?forallb_app, ?u_escape_ascii; reflexivity.
Qed.

Lemma encode_basestring_ascii_ascii (s : str) :
  forallb is_ascii (encode_basestring_ascii s) = true.
Proof.
  unfold encode_basestring_ascii. cbn [forallb].
  rewrite forallb_app. cbn [forallb]. change (is_ascii ch_quote) with true.
  rewrite andb_true_r. cbn [andb].
  induction s as [|c s IH]; [reflexivity|].
  cbn [flat_map]. rewrite forallb_app, escape_char_ascii, IH. reflexivity.
Qed.

Lemma is_digit_ascii (ds : str) :
  forallb is_digit ds = true -> forallb is_ascii ds = true.
Proof.
  induction ds as [|c ds IH]; [reflexivity|].
  cbn [forallb]. intros H. apply andb_prop in H. destruct H as [Hc Hd].
  rewrite (IH Hd), andb_true_r. unfold is_digit in Hc. unfold is_ascii.
  apply andb_prop in Hc. destruct Hc as [_ Hc]. apply N.leb_le in Hc.
  apply N.ltb_lt. lia.
Qed.

Lemma str_of_Z_ascii (z : Z) : forallb is_ascii (str_of_Z z) = true.
Proof.
  unfold str_of_Z. destruct (z <? 0); cbn [forallb];
    rewrite is_digit_ascii by apply str_of_N_spec; reflexivity.
Qed.

(** ** The decoder reads back what the encoder writes *)



Lemma str_of_N_head (n : N) :
  exists c tl, str_of_N n = c :: tl /\ is_digit c = true.
Proof.
  destruct (str_of_N_spec n) as (Hd & _ & Hhd).
  destruct (N.eq_dec n 0) as [->|Hnz].
  - exists 48%N, []. split; reflexivity.
  - destruct (Hhd ltac:(lia)) as (c & tl & E & _). rewrite E in Hd.
    cbn [forallb] in Hd. apply andb_prop in Hd.
    exists c, tl. split; [exact E | tauto].
Qed.

Lemma dumps_head (j : json) :
  exists c tl, dumps j = c :: tl /\ value_start c = true.
Proof.
  destruct j as [|[|]|z|s|l|items]; cbn [dumps];
    try (eexists; eexists; split; [reflexivity | reflexivity]).
  unfold str_of_Z. destruct (z <? 0).
  - eexists; eexists; split; reflexivity.
  - destruct (str_of_N_head (Z.to_N z)) as (c & tl & -> & Hc).
    exists c, tl. split; [reflexivity|]. unfold value_start. rewrite Hc.
    rewrite !orb_true_r. reflexivity.
Qed.

Lemma value_start_not_ws (c : char) : value_start c = true -> is_ws c = false.
Proof.
  unfold value_start, is_ws, is_digit. intros H.
  repeat match goal with
         | H : (_ || _) = true |- _ => apply orb_true_iff in H; destruct H as [H|H]
         | H : (_ && _) = true |- _ => apply andb_prop in H; destruct H
         | H : (_ =? _)%N = true |- _ => apply N.eqb_eq in H; subst
         | H : (_ <=? _)%N = true |- _ => apply N.leb_le in H
         end; try reflexivity.
  repeat match goal with
         | |- context [(c =? ?k)%N] => destruct (N.eqb_spec c k); [lia|]
         end. reflexivity.
Qed.

Lemma skip_ws_value (j : json) (rest : str) :
  skip_ws (dumps j ++ rest) = dumps j ++ rest.
Proof.
  destruct (dumps_head j) as (c & tl & -> & Hc). cbn [app skip_ws].
  rewrite (value_start_not_ws c Hc). reflexivity.
Qed.

Lemma delimited_number_end (rest : str) :
  delimited rest = true ->
  starts_with_digit rest = false /\ float_tail rest = false.
Proof.
  destruct rest as [|c rest]; [split; reflexivity|].
  cbn [delimited starts_with_digit float_tail]. intros H.
  repeat match goal with
         | H : (_ || _) = true |- _ => apply orb_true_iff in H; destruct H as [H|H]
         | H : (_ =? _)%N = true |- _ => apply N.eqb_eq in H; subst
         end; split; reflexivity.
Qed.

Lemma startswith_head_neq (c : N) (tl : list N) (d : N) (p : list N) :
  c <> d -> startswith (c :: tl) (d :: p) = false.
Proof.
  intros Hn. cbn [startswith]. destruct (N.eqb_spec c d); [contradiction|].
  reflexivity.
Qed.

Lemma scan_once_JInt (fuel : nat) (z : Z) (rest : str) :
  delimited rest = true ->
  scan_once (S fuel) (str_of_Z z ++ rest) = Ok (JInt z, rest).
Proof.
  intros Hd. destruct (delimited_number_end rest Hd) as [Hr Hf].
  pose proof (match_number_str_of_Z z rest Hr Hf) as Hm.
  assert (Hhead : exists c tl, str_of_Z z ++ rest = c :: tl /\
                               (c = 45%N \/ is_digit c = true)).
  { unfold str_of_Z. destruct (z <? 0).
    - eexists; eexists; split; [reflexivity | left; reflexivity].
    - destruct (str_of_N_head (Z.to_N z)) as (c & tl & -> & Hc).
      eexists; eexists; split; [reflexivity | right; exact Hc]. }
  destruct Hhead as (c & tl & E & Hc). rewrite E in *.
  assert (Hne : c <> 34%N /\ c <> 123%N /\ c <> 91%N /\ c <> 110%N /\
                c <> 116%N /\ c <> 102%N).
  { destruct Hc as [->|Hc]; [repeat split; discriminate|].
    unfold is_digit in Hc. apply andb_prop in Hc. destruct Hc as [H1 H2].
    apply N.leb_le in H1. apply N.leb_le in H2. repeat split; lia. }
  destruct Hne as (N1 & N2 & N3 & N4 & N5 & N6).
  cbn [scan_once].
  destruct (N.eqb_spec c 34); [contradiction|].
  destruct (N.eqb_spec c 123); [contradiction|].
  destruct (N.eqb_spec c 91); [contradiction|].
  change (lit "null") with (110%N :: lit "ull").
  change (lit "true") with (116%N :: lit "rue").
  change (lit "false") with (102%N :: lit "alse").
  rewrite (startswith_head_neq c tl 110%N (lit "ull")) by assumption.
  rewrite (startswith_head_neq c tl 116%N (lit "rue")) by assumption.
  rewrite (startswith_head_neq c tl 102%N (lit "alse")) by assumption.
  rewrite Hm. reflexivity.
Qed.







Lemma join_cons2 (sep x y : str) (l : list str) :
  join sep (x :: y :: l) = x ++ sep ++ join sep (y :: l).
Proof. reflexivity. Qed.

Lemma arr_body_join (l : list json) (rest : str) :
  l <> [] ->
  join (lit ",") (List.map dumps l) ++ 93%N :: rest = arr_body l rest.
Proof.
  induction l as [|x more IH]; intros Hne; [contradiction|].
  destruct more as [|y more].
  - reflexivity.
  - cbn [List.map]. rewrite join_cons2, <- !app_assoc.
    cbn [List.map] in IH. rewrite IH by discriminate. reflexivity.
Qed.

Lemma arr_need_join (l : list json) :
  l <> [] ->
  (length (join (lit ",") (List.map dumps l)) + 1 = arr_need l)%nat.
Proof.
  induction l as [|x more IH]; intros Hne; [contradiction|].
  destruct more as [|y more].
  - cbn [List.map join arr_need fold_right]. lia.
  - cbn [List.map]. rewrite join_cons2, !length_app.
    cbn [List.map] in IH. specialize (IH ltac:(discriminate)).
    cbn [arr_need fold_right] in *. cbn [lit List.map length list_ascii_of_string] in *.
    lia.
Qed.

Lemma obj_body_join (kvs : list (str * json)) (rest : str) :
  kvs <> [] ->
  join (lit ",") (List.map render_kv kvs) ++ 125%N :: rest =
  34%N :: obj_body kvs rest.
Proof.
  induction kvs as [|kv more IH]; intros Hne; [contradiction|].
  assert (Hr : forall tail, render_kv kv ++ tail =
    34%N :: flat_map escape_char (fst kv) ++ 34%N :: 58%N :: dumps (snd kv) ++ tail).
  { intros tail. unfold render_kv, encode_basestring_ascii.
    cbn [app]. rewrite <- !app_assoc. reflexivity. }
  destruct more as [|kv' more].
  - cbn [List.map join obj_body]. apply Hr.
  - cbn [List.map]. rewrite join_cons2, <- !app_assoc.
    cbn [List.map] in IH. rewrite IH by discriminate.
    rewrite Hr. reflexivity.
Qed.

Lemma obj_need_join (kvs : list (str * json)) :
  (obj_need kvs <= length (join (lit ",") (List.map render_kv kvs)) + 1)%nat.
Proof.
  induction kvs as [|kv more IH]; [cbn; lia|].
  assert (Hr : (length (dumps (snd kv)) <= length (render_kv kv))%nat).
  { unfold render_kv. rewrite !length_app. lia. }
  destruct more as [|kv' more].
  - cbn [List.map join obj_need fold_right]. lia.
  - cbn [List.map]. rewrite join_cons2, !length_app.
    cbn [List.map] in IH. cbn [obj_need fold_right] in *.
    cbn [lit List.map length list_ascii_of_string] in *. lia.
Qed.

Lemma delimited_skip_ws (c : char) (rest : str) :
  delimited (c :: rest) = true -> skip_ws (c :: rest) = c :: rest.
Proof.
  cbn [delimited skip_ws]. intros H.
  repeat match goal with
         | H : (_ || _) = true |- _ => apply orb_true_iff in H; destruct H as [H|H]
         | H : (_ =? _)%N = true |- _ => apply N.eqb_eq in H; subst
         end; reflexivity.
Qed.

Lemma array_items_reads (l : list json) :
  l <> [] ->
  Forall (fun x => wf_json x = true /\ reads_back x) l ->
  forall fuel rest,
    (arr_need l < fuel)%nat ->
    array_items fuel (arr_body l rest) = Ok (List.map key_sorted l, rest).
Proof.
  induction l as [|x more IH]; intros Hne Hall fuel rest Hfuel; [contradiction|].
  inversion Hall as [|? ? [Hwf Hx] Hmore]; subst.
  destruct fuel as [|fuel]; [lia|].
  cbn [arr_need fold_right] in Hfuel.
  change (fold_right (fun x acc => S (length (dumps x) + acc)) O more)
    with (arr_need more) in Hfuel.
  cbn [array_items arr_body].
  destruct more as [|y more].
  - rewrite (Hx Hwf fuel (93%N :: rest)) by (try reflexivity; lia).
    cbn [bind skip_ws is_ws]. reflexivity.
  - rewrite (Hx Hwf fuel (44%N :: arr_body (y :: more) rest))
      by (try reflexivity; lia).
    cbn [bind]. change (skip_ws (44%N :: ?s)) with (44%N :: s).
    cbn [N.eqb Pos.eqb negb].
    assert (Hsk : skip_ws (arr_body (y :: more) rest) = arr_body (y :: more) rest).
    { cbn [arr_body]. apply skip_ws_value. }
    rewrite Hsk, (IH ltac:(discriminate) Hmore fuel rest) by lia.
    reflexivity.
Qed.

Lemma object_items_reads (kvs : list (str * json)) :
  kvs <> [] ->
  Forall (fun kv => wf_str (fst kv) = true /\ wf_json (snd kv) = true /\
                    reads_back (snd kv)) kvs ->
  forall fuel rest,
    (obj_need kvs < fuel)%nat ->
    object_items fuel (obj_body kvs rest) =
    Ok (List.map (fun kv => (fst kv, key_sorted (snd kv))) kvs, rest).
Proof.
  induction kvs as [|kv more IH]; intros Hne Hall fuel rest Hfuel; [contradiction|].
  inversion Hall as [|? ? (Hk & Hwf & Hv) Hmore]; subst.
  destruct fuel as [|fuel]; [lia|].
  cbn [obj_need fold_right] in Hfuel.
  change (fold_right (fun kv acc => S (length (dumps (snd kv)) + acc)) O more)
    with (obj_need more) in Hfuel.
  cbn [object_items obj_body].
  rewrite scanstring_encoded by exact Hk. cbn [bind].
  change (skip_ws (58%N :: ?s)) with (58%N :: s).
  cbn [N.eqb Pos.eqb negb].
  rewrite skip_ws_value.
  destruct more as [|kv' more].
  - rewrite (Hv Hwf fuel (125%N :: rest)) by (try reflexivity; lia).
    cbn [bind skip_ws is_ws]. reflexivity.
  - rewrite (Hv Hwf fuel (44%N :: 34%N :: obj_body (kv' :: more) rest))
      by (try reflexivity; lia).
    cbn [bind]. change (skip_ws (44%N :: ?s)) with (44%N :: s).
    cbn [N.eqb Pos.eqb negb].
    change (skip_ws (34%N :: ?s)) with (34%N :: s).
    cbn [N.eqb Pos.eqb].
    rewrite (IH ltac:(discriminate) Hmore fuel rest) by lia.
    reflexivity.
Qed.

Lemma dict_of_pairs_distinct (pairs : list (str * json)) :
  NoDup (List.map fst pairs) -> dict_of_pairs pairs = pairs.
Proof.
  unfold dict_of_pairs.
  assert (H : forall acc,
    NoDup (List.map fst (acc ++ pairs)) ->
    fold_left (fun d kv => dict_set d (fst kv) (snd kv)) pairs acc = acc ++ pairs).
  { induction pairs as [|[k v] pairs IH]; intros acc Hnd.
    - cbn [fold_left]. rewrite app_nil_r. reflexivity.
    - cbn [fold_left fst snd]. rewrite dict_set_fresh.
      + rewrite IH; rewrite <- app_assoc; [reflexivity | exact Hnd].
      + rewrite map_app in Hnd. cbn [List.map fst] in Hnd.
        apply NoDup_remove_2 in Hnd. intros Hin. apply Hnd.
        apply in_or_app. left. exact Hin. }
  intros Hnd. apply (H []). exact Hnd.
Qed.

Lemma dumps_JList_app (l : list json) (rest : str) :
  l <> [] ->
  dumps (JList l) ++ rest = 91%N :: arr_body l rest /\
  length (dumps (JList l)) = S (arr_need l).
Proof.
  intros Hne. cbn [dumps]. change (lit "[") with [91%N].
  change (lit "]") with [93%N]. split.
  - cbn [app]. rewrite <- app_assoc. f_equal.
    exact (arr_body_join _ rest Hne).
  - cbn [app]. rewrite length_cons, length_app.
    pose proof (arr_need_join _ Hne) as Hn.
    cbn [length]. lia.
Qed.

Lemma dumps_JDict_app (items : dict) (rest : str) :
  sort_items items <> [] ->
  dumps (JDict items) ++ rest = 123%N :: 34%N :: obj_body (sort_items items) rest /\
  (obj_need (sort_items items) < length (dumps (JDict items)))%nat.
Proof.
  intros Hne. rewrite dumps_JDict.
  change (fun kv : str * json =>
            encode_basestring_ascii (fst kv) ++ lit ":" ++ dumps (snd kv))
    with render_kv.
  change (lit "{") with [123%N]. change (lit "}") with [125%N]. split.
  - cbn [app]. rewrite <- app_assoc.
    exact (f_equal (cons 123%N) (obj_body_join _ rest Hne)).
  - cbn [app]. rewrite length_cons, length_app.
    pose proof (obj_need_join (sort_items items)) as Hn.
    cbn [length]. lia.
Qed.

Lemma json_reads_back (j : json) : reads_back j.
Proof.
  induction j as [|b|z|s|l IH|items IH] using json_nested_ind;
    intros Hwf fuel rest Hfuel Hd;
    (destruct fuel as [|fuel]; [lia|]).
  - reflexivity.
  - destruct b; reflexivity.
  - apply scan_once_JInt. exact Hd.
  - cbn [dumps key_sorted wf_json] in *.
    destruct (scanstring_encode_basestring s rest Hwf) as (body & -> & Hs).
    cbn [scan_once]. change (34 =? 34)%N with true. cbv iota.
    rewrite Hs. reflexivity.
  - cbn [wf_json] in Hwf. cbn [key_sorted].
    destruct l as [|x more]; [reflexivity|].
    assert (Hne : x :: more <> []) by discriminate.
    destruct (dumps_JList_app (x :: more) rest Hne) as [-> Hlen].
    rewrite Hlen in Hfuel.
    cbn [scan_once]. change (91 =? 34)%N with false.
    change (91 =? 123)%N with false. change (91 =? 91)%N with true.
    cbv iota.
    assert (Hsk : skip_ws (arr_body (x :: more) rest) = arr_body (x :: more) rest).
    { cbn [arr_body]. apply skip_ws_value. }
    rewrite Hsk.
    destruct (dumps_head x) as (c & tl & Ex & Hc).
    assert (Hc93 : (c =? 93)%N = false).
    { unfold value_start, is_digit in Hc.
      destruct (N.eqb_spec c 93) as [->|]; [discriminate Hc | reflexivity]. }
    assert (Harr : array_items fuel (arr_body (x :: more) rest) =
                   Ok (List.map key_sorted (x :: more), rest)).
    { apply array_items_reads; [exact Hne | | lia].
      rewrite forallb_forall in Hwf. rewrite Forall_forall in *.
      intros y Hy. split; [apply Hwf; exact Hy | apply IH; exact Hy]. }
    remember (arr_body (x :: more) rest) as body eqn:Eb.
    assert (Ehd : exists tl', body = c :: tl').
    { subst body. cbn [arr_body]. rewrite Ex. eexists. reflexivity. }
    destruct Ehd as (tl' & Ebody). rewrite Ebody in *.
    rewrite Hc93, Harr. reflexivity.
  - cbn [wf_json] in Hwf. apply andb_prop in Hwf. destruct Hwf as [Hdist Hwf].
    apply distinct_NoDup in Hdist.
    cbn [key_sorted]. rewrite sort_items_map.
    pose proof (sort_items_perm items) as Hperm.
    assert (Hall : Forall (fun kv => wf_str (fst kv) = true /\
                                     wf_json (snd kv) = true /\
                                     reads_back (snd kv)) (sort_items items)).
    { apply (Permutation_Forall Hperm).
      rewrite forallb_forall in Hwf. rewrite Forall_forall in *.
      intros kv Hkv. specialize (Hwf kv Hkv). apply andb_prop in Hwf.
      destruct Hwf as [H1 H2]. repeat split; try assumption.
      apply IH. exact Hkv. }
    assert (Hnd : NoDup (List.map fst (sort_items items))).
    { apply (Permutation_NoDup (Permutation_map fst Hperm)). exact Hdist. }
    destruct (sort_items items) as [|kv more] eqn:Es.
    + assert (items = []) as ->
        by (apply Permutation_nil, Permutation_sym; exact Hperm).
      reflexivity.
    + assert (Hne : sort_items items <> []) by (rewrite Es; discriminate).
      destruct (dumps_JDict_app items rest Hne) as [-> Hlen].
      rewrite Es in *.
      cbn [scan_once]. change (123 =? 34)%N with false.
      change (123 =? 123)%N with true. cbv iota.
      change (skip_ws (34%N :: ?s)) with (34%N :: s).
      change (34 =? 125)%N with false. change (34 =? 34)%N with true. cbv iota.
      assert (Hne2 : kv :: more <> []) by discriminate.
      rewrite (object_items_reads (kv :: more) Hne2 Hall fuel rest) by lia.
      cbn [bind]. rewrite dict_of_pairs_distinct; [reflexivity|].
      rewrite map_map. cbn [fst]. exact Hnd.
Qed.

Lemma join_ascii (l : list str) :
  Forall (fun x => forallb is_ascii x = true) l ->
  forallb is_ascii (join (lit ",") l) = true.
Proof.
  induction 1 as [|x more Hx Hmore IH]; [reflexivity|].
  destruct more as [|y more]; [exact Hx|].
  rewrite join_cons2, !forallb_app, Hx, IH. reflexivity.
Qed.

Lemma dumps_ascii (j : json) : forallb is_ascii (dumps j) = true.
Proof.
  induction j as [|b|z|s|l IH|items IH] using json_nested_ind.
  - reflexivity.
  - destruct b; reflexivity.
  - apply str_of_Z_ascii.
  - apply encode_basestring_ascii_ascii.
  - cbn [dumps]. rewrite !forallb_app, join_ascii; [reflexivity|].
    rewrite Forall_forall in *. intros x Hx. apply in_map_iff in Hx.
    destruct Hx as (y & <- & Hy). apply IH. exact Hy.
  - rewrite dumps_JDict. rewrite !forallb_app, join_ascii; [reflexivity|].
    pose proof (Permutation_Forall (sort_items_perm items) IH) as Hs.
    rewrite Forall_forall in *. intros x Hx. apply in_map_iff in Hx.
    destruct Hx as (kv & <- & Hkv).
    rewrite !forallb_app, encode_basestring_ascii_ascii, (Hs kv Hkv).
    reflexivity.
Qed.

(** [loads] undoes [dumps], up to the order of the items. *)
Lemma loads_dumps (j : json) :
  wf_json j = true -> loads (dumps j) = Ok (key_sorted j).
Proof.
  intros Hwf. unfold loads.
  destruct (dumps_head j) as (c & tl & E & Hc).
  assert (Hbom : startswith (dumps j) [65279%N] = false).
  { pose proof (dumps_ascii j) as Ha. rewrite E in *.
    cbn [forallb] in Ha. apply andb_prop in Ha. destruct Ha as [Ha _].
    unfold is_ascii in Ha. apply N.ltb_lt in Ha.
    cbn [startswith]. destruct (N.eqb_spec c 65279); [lia | reflexivity]. }
  rewrite Hbom.
  pose proof (skip_ws_value j []) as Hsk. rewrite app_nil_r in Hsk. rewrite Hsk.
  pose proof (json_reads_back j Hwf (S (length (dumps j))) [] ltac:(lia) eq_refl)
    as Hr.
  rewrite app_nil_r in Hr. rewrite Hr. reflexivity.
Qed.

(** ** The tree description as bytes *)


Lemma to_N_byte_of_char (c : char) :
  (c < 256)%N -> Byte.to_N (byte_of_char c) = c.
Proof.
  intros Hc. unfold byte_of_char.
  pose proof (Z_of_byte_of_Z (Z.of_N c)) as H. unfold Z_of_byte in H.
  rewrite Z.mod_small in H by lia. lia.
Qed.

Lemma utf8_encode_ascii (s : str) :
  forallb is_ascii s = true ->
  utf8_encode s = Ok (List.map byte_of_char s).
Proof.
  induction s as [|c s IH]; intros Ha; [reflexivity|].
  cbn [forallb] in Ha. apply andb_prop in Ha. destruct Ha as [Hc Hs].
  cbn [utf8_encode]. unfold utf8_encode_char. unfold is_ascii in Hc.
  rewrite Hc. cbn [bind]. rewrite (IH Hs). reflexivity.
Qed.

Lemma utf8_decode_ascii (s : str) :
  forallb is_ascii s = true ->
  utf8_decode (List.map byte_of_char s) = Ok s.
Proof.
  induction s as [|c s IH]; intros Ha; [reflexivity|].
  cbn [forallb] in Ha. apply andb_prop in Ha. destruct Ha as [Hc Hs].
  unfold is_ascii in Hc. pose proof Hc as Hlt. apply N.ltb_lt in Hlt.
  cbn [List.map utf8_decode].
  rewrite to_N_byte_of_char by lia. rewrite Hc, (IH Hs). reflexivity.
Qed.

Lemma encode_tree_inv (hdr : json) (encoded : bytes) :
  encode_tree hdr = Ok encoded ->
  exists tree_bytes record,
    utf8_encode (dumps hdr) = Ok tree_bytes /\
    let n := Z.of_nat (length tree_bytes) in
    pack_4I 4 (round_up n 4 + 8) (round_up n 4 + 4) n = Ok record /\
    encoded = record ++ pad_header tree_bytes (round_up n 4 - n).
Proof.
  unfold encode_tree. intros He.
  destruct (utf8_encode (dumps hdr)) as [tb|e]; cbn [bind] in He; [|discriminate].
  destruct (pack_4I 4 _ _ _) as [record|e] eqn:Ep in He; cbn [bind] in He;
    [|discriminate].
  injection He as <-. exists tb, record. repeat split; assumption.
Qed.

Lemma compress_encode_tree realpath read_file pats p root a :
  compress realpath read_file pats p root = Ok a ->
  exists encoded b,
    _path_to_dict realpath pats p root (mkBuilder 0 []) = Ok (header a, b) /\
    encode_tree (header a) = Ok encoded /\
    data (fp a) = encoded ++ _paths_to_bytes read_file (paths b).
Proof.
  intros Hc. apply compress_inv in Hc.
  destruct Hc as (hdr & b & tb & record & Hd & He & Hp & ->).
  cbn [header fp data]. cbv zeta in Hp.
  exists (record ++ pad_header tb
            (round_up (Z.of_nat (length tb)) 4 - Z.of_nat (length tb))), b.
  split; [exact Hd|]. split.
  - unfold encode_tree. rewrite He. cbn [bind]. rewrite Hp. reflexivity.
  - rewrite <- app_assoc. reflexivity.
Qed.

Lemma encode_tree_total (hdr : json) :
  Z.of_nat (length (dumps hdr)) + 11 < 2 ^ 32 ->
  exists encoded, encode_tree hdr = Ok encoded.
Proof.
  intros Hsize. unfold encode_tree.
  rewrite (utf8_encode_ascii _ (dumps_ascii hdr)). cbn [bind].
  rewrite length_map. rewrite round_up_4_align4.
  pose proof (align4_bounds (Z.of_nat (length (dumps hdr)))) as Hb.
  unfold pack_4I, u32_ok.
  repeat match goal with
         | |- context [?a <=? ?b] =>
             destruct (Z.leb_spec a b); [|lia]
         | |- context [?a <? ?b] =>
             destruct (Z.ltb_spec a b); [|lia]
         end.
  cbn [andb bind]. eexists. reflexivity.
Qed.

(** [Asar.open] on the bytes of [encode_tree] followed by any payload. *)
Lemma asar_open_encode_tree (hdr : json) (encoded payload : bytes) (p : str) :
  wf_json hdr = true ->
  encode_tree hdr = Ok encoded ->
  asar_open p (Ok (encoded ++ payload)) =
  Ok (mkAsar p (mkStream (encoded ++ payload) false) (key_sorted hdr)
        (align4 (16 + Z.of_nat (length (dumps hdr))))).
Proof.
  intros Hwf He. apply encode_tree_inv in He.
  destruct He as (tb & record & Hu & Hp & ->). cbv zeta in Hp.
  rewrite (utf8_encode_ascii _ (dumps_ascii hdr)) in Hu. injection Hu as <-.
  rewrite length_map in *. rewrite pad_header_app.
  pose proof (pack_4I_length _ _ _ _ _ Hp) as Hlen.
  pose proof (unpack_pack_4I _ _ _ _ _ Hp) as Hun.
  unfold asar_open, asar_open_body. cbn [bind].
  assert (Hf : forall rest : bytes, firstn 16 (record ++ rest) = record).
  { intros rest. rewrite <- Hlen.
    rewrite firstn_app, Nat.sub_diag, firstn_all. cbn [firstn].
    apply app_nil_r. }
  assert (Hs : forall rest : bytes, skipn 16 (record ++ rest) = rest).
  { intros rest. rewrite <- Hlen.
    rewrite skipn_app, Nat.sub_diag, skipn_all. reflexivity. }
  rewrite <- !app_assoc. rewrite Hf, Hun. cbn [bind].
  rewrite Hs, Nat2Z.id.
  rewrite <- (length_map byte_of_char (dumps hdr)) at 1.
  rewrite firstn_app, Nat.sub_diag, firstn_all. cbn [firstn].
  rewrite app_nil_r, (utf8_decode_ascii _ (dumps_ascii hdr)). cbn [bind].
  rewrite (loads_dumps hdr Hwf). cbn [bind].
  rewrite !round_up_4_align4. reflexivity.
Qed.

(** ** Equality of Python objects *)

Lemma py_eq_list_all (a : list json) :
  (fix all (a b : list json) : bool :=
     match a, b with
     | [], [] => true
     | x :: a', y :: b' => py_eq x y && all a' b'
     | _, _ => false
     end) (List.map key_sorted a) a = forallb (fun x => py_eq (key_sorted x) x) a.
Proof.
  induction a as [|x a IH]; [reflexivity|].
  cbn [List.map forallb]. rewrite IH. reflexivity.
Qed.

Lemma py_eq_dict_all (a b : dict) :
  (fix all (a : dict) : bool :=
     match a with
     | [] => true
     | (k, v) :: a' =>
         match dict_get b k with
         | Some v' => py_eq v v'
         | None => false
         end && all a'
     end) a =
  forallb (fun kv => match dict_get b (fst kv) with
                     | Some v' => py_eq (snd kv) v'
                     | None => false
                     end) a.
Proof.
  induction a as [|[k v] a IH]; [reflexivity|].
  cbn [forallb fst snd]. rewrite IH. reflexivity.
Qed.

Lemma dict_get_In_NoDup (d : dict) (k : str) (v : json) :
  NoDup (List.map fst d) -> In (k, v) d -> dict_get d k = Some v.
Proof.
  induction d as [|[k' v'] d IH]; intros Hnd Hin; [contradiction|].
  cbn [List.map fst] in Hnd. inversion Hnd as [|? ? Hk Hnd']; subst.
  cbn [dict_get]. destruct Hin as [[= -> ->]|Hin].
  - rewrite str_eqb_refl. reflexivity.
  - destruct (str_eqb k' k) eqn:E.
    + apply str_eqb_eq in E. subst. exfalso. apply Hk.
      apply (in_map fst) in Hin. exact Hin.
    + apply IH; assumption.
Qed.

(** The key-sorted value is equal to the value, as [==] has it. *)
Lemma py_eq_key_sorted (j : json) :
  wf_json j = true -> py_eq (key_sorted j) j = true.
Proof.
  induction j as [|b|z|s|l IH|items IH] using json_nested_ind; intros Hwf.
  - reflexivity.
  - destruct b; reflexivity.
  - cbn [key_sorted py_eq]. apply Z.eqb_refl.
  - cbn [key_sorted py_eq]. apply str_eqb_refl.
  - cbn [key_sorted py_eq]. rewrite py_eq_list_all.
    cbn [wf_json] in Hwf. rewrite forallb_forall in *. rewrite Forall_forall in IH.
    intros x Hx. apply IH; [exact Hx | apply Hwf; exact Hx].
  - cbn [wf_json] in Hwf. apply andb_prop in Hwf. destruct Hwf as [Hdist Hwf].
    apply distinct_NoDup in Hdist.
    cbn [key_sorted]. rewrite (sort_items_map key_sorted).
    cbn [py_eq]. rewrite py_eq_dict_all.
    pose proof (sort_items_perm items) as Hperm.
    apply andb_true_iff. split.
    + rewrite length_map, <- (Permutation_length Hperm). apply Nat.eqb_refl.
    + rewrite forallb_forall. intros kv Hkv. apply in_map_iff in Hkv.
      destruct Hkv as ([k v] & <- & Hin). cbn [fst snd].
      apply (Permutation_in _ (Permutation_sym Hperm)) in Hin.
      rewrite (dict_get_In_NoDup items k v Hdist Hin).
      rewrite forallb_forall in Hwf. rewrite Forall_forall in IH.
      specialize (Hwf _ Hin). apply andb_prop in Hwf.
      apply (IH _ Hin). tauto.
Qed.

(** ** The header round trip *)

Lemma encode_tree_deterministic_compress realpath read_file pats p root a encoded :
  compress realpath read_file pats p root = Ok a ->
  encode_tree (header a) = Ok encoded ->
  data (fp a) = encoded ++ skipn (length encoded) (data (fp a)) /\
  base_offset a = align4 (16 + Z.of_nat (length (dumps (header a)))).
Proof.
  intros Hc He.
  destruct (compress_encode_tree _ _ _ _ _ _ Hc) as (enc' & b & _ & He' & Hdata).
  rewrite He in He'. injection He' as <-. split.
  - rewrite Hdata at 1. rewrite Hdata.
    rewrite skipn_app, Nat.sub_diag, skipn_all. reflexivity.
  - apply compress_inv in Hc.
    destruct Hc as (hdr & b' & tb & record & _ & Hu & _ & ->).
    cbn [header base_offset].
    rewrite (utf8_encode_ascii _ (dumps_ascii hdr)) in Hu. injection Hu as <-.
    rewrite length_map, round_up_4_align4. reflexivity.
Qed.

(** C1, as the code has it. For every tree whose strings are sequences of
    code points without a high surrogate directly before a low one, and
    whose description fits the 32-bit fields, the 16-byte record and padded
    description that [compress] writes are read back by [open] as the tree
    with the items of every dictionary in key order: a tree equal to the
    original as Python compares dictionaries, not one with the original
    order of entries.  The base offset read back is
    [align4(16 + headerStringSize)], the one [compress] records. *)
Theorem C1_header_round_trip (hdr : json) (payload : bytes) (p : str) :
  wf_json hdr = true ->
  Z.of_nat (length (dumps hdr)) + 11 < 2 ^ 32 ->
  exists encoded a,
    encode_tree hdr = Ok encoded /\
    asar_open p (Ok (encoded ++ payload)) = Ok a /\
    header a = key_sorted hdr /\
    py_eq (header a) hdr = true /\
    base_offset a = align4 (16 + Z.of_nat (length (dumps hdr))) /\
    forall realpath read_file pats dir root packed,
      compress realpath read_file pats dir root = Ok packed ->
      header packed = hdr ->
      data (fp packed) = encoded ++ skipn (length encoded) (data (fp packed)) /\
      base_offset packed = base_offset a.
Proof.
  intros Hwf Hsize.
  destruct (encode_tree_total hdr Hsize) as (encoded & He).
  exists encoded. eexists. split; [exact He|]. split.
  { exact (asar_open_encode_tree hdr encoded payload p Hwf He). }
  cbn [header base_offset]. split; [reflexivity|]. split.
  { apply py_eq_key_sorted. exact Hwf. }
  split; [reflexivity|].
  intros realpath read_file pats dir root packed Hc <-.
  apply (encode_tree_deterministic_compress _ _ _ _ _ _ _ Hc He).
Qed.

(** The empty directory tree. *)
Lemma C1_header_round_trip_witness :
  wf_json (dir_node []) = true /\
  Z.of_nat (length (dumps (dir_node []))) + 11 < 2 ^ 32 /\
  exists encoded a,
    encode_tree (dir_node []) = Ok encoded /\
    asar_open (lit "app.asar") (Ok (encoded ++ [])) = Ok a /\
    header a = dir_node [] /\
    base_offset a = 28.
Proof.
  split; [reflexivity|]. split; [vm_compute; reflexivity|].
  destruct (C1_header_round_trip (dir_node []) [] (lit "app.asar") eq_refl
              ltac:(vm_compute; reflexivity))
    as (encoded & a & He & Ho & Hh & _ & Hb & _).
  exists encoded, a. repeat split; assumption.
Defined.

(** C1 as stated fails: the tree that lists [b] before [a] is read back
    with [a] before [b]; the two trees differ, and so do the listings that
    [list_files] gives for the archive as packed and as opened again. *)
Lemma C1_exact_tree_counterexample :
  exists packed opened,
    compress no_links sample_b_then_a_read [] (lit "src") sample_b_then_a
      = Ok packed /\
    asar_open (lit "app.asar") (Ok (data (fp packed))) = Ok opened /\
    header opened <> header packed /\
    list_files packed [] = Ok [lit "b"; lit "a"] /\
    list_files opened [] = Ok [lit "a"; lit "b"].
Proof.
  eexists. eexists.
  split; [vm_compute; reflexivity|].
  split; [vm_compute; reflexivity|].
  split; [cbn [header]; discriminate|].
  split; vm_compute; reflexivity.
Qed.

(** ** The builder makes trees *)

Lemma dict_set_forallb (f : str * json -> bool) (d : dict) (k : str) (v : json) :
  (forall k', f (k', v) = f (k, v)) ->
  forallb f d = true -> f (k, v) = true -> forallb f (dict_set d k v) = true.
Proof.
  intros Hk. induction d as [|[k0 v0] d IH]; intros Hd Hv; cbn [dict_set].
  - cbn [forallb]. rewrite Hv. reflexivity.
  - cbn [forallb] in Hd. apply andb_prop in Hd. destruct Hd as [H0 Hd].
    destruct (str_eqb k0 k); cbn [forallb].
    + rewrite (Hk k0), Hv, Hd. reflexivity.
    + rewrite H0, (IH Hd Hv). reflexivity.
Qed.

Lemma scan_loop_is_tree realpath pats (es : list dirent) :
  Forall (fun e => match e with
                   | EDir _ _ sub => builds_tree realpath pats sub
                   | EOther _ _ _ => True
                   end) es ->
  forall dir_path files b files' b',
    is_tree_files (JDict files) = true ->
    scan_loop realpath pats dir_path es files b = Ok (files', b') ->
    is_tree_files (JDict files') = true.
Proof.
  induction 1 as [|f es Hf Hes IH]; intros dir_path files b files' b' Ht Hl.
  - injection Hl as <- <-. exact Ht.
  - cbn [scan_loop] in Hl. cbv zeta in Hl.
    assert (Hstep : forall v b1,
      is_tree_node v = true ->
      scan_loop realpath pats dir_path es (dict_set files (entry_name f) v) b1
        = Ok (files', b') ->
      is_tree_files (JDict files') = true).
    { intros v b1 Hv Hl1.
      apply (IH dir_path (dict_set files (entry_name f) v) b1 files' b');
        [|exact Hl1].
      cbn [is_tree_files] in *. apply dict_set_forallb;
        [reflexivity | exact Ht | exact Hv]. }
    destruct (should_exclude pats _); [exact (IH _ _ _ _ _ Ht Hl)|].
    destruct f as [name l sub|name [|] st].
    + destruct (_path_to_dict realpath pats _ sub b) as [[d b1]|e] eqn:Ed;
        cbn [bind] in Hl; [|discriminate].
      apply (Hstep d b1); [exact (Hf _ _ _ _ Ed) | exact Hl].
    + apply (Hstep (link_node (realpath name)) b); [reflexivity | exact Hl].
    + destruct st as [sz| |]; [| |discriminate].
      * exact (Hstep (file_node (Z.of_N sz) (str_of_Z (offset b))) _ eq_refl Hl).
      * injection Hl as <- <-. exact Ht.
Qed.

Lemma _path_to_dict_is_tree realpath pats (sc : scan) :
  builds_tree realpath pats sc.
Proof.
  apply (scan_nested_ind
           (builds_tree realpath pats)
           (fun e => match e with
                     | EDir _ _ sub => builds_tree realpath pats sub
                     | EOther _ _ _ => True
                     end)).
  - intros entries HQ dir_path b node b' Hd.
    rewrite _path_to_dict_ScanOk in Hd.
    destruct (scan_loop realpath pats dir_path entries [] b)
      as [[files b1]|e] eqn:El; cbn [bind] in Hd; [|discriminate].
    injection Hd as <- <-. cbn [fst]. rewrite dir_node_is_tree.
    exact (scan_loop_is_tree _ _ _ HQ dir_path [] b files b1 eq_refl El).
  - intros dir_path b node b' Hd. injection Hd as <- <-. reflexivity.
  - intros dir_path b node b' Hd. discriminate.
  - intros name l sub IH. exact IH.
  - intros; exact I.
Qed.

(** The header of a packed archive is a tree, so the statements about
    trees apply to it. *)
Lemma compress_is_tree realpath read_file pats p root a :
  compress realpath read_file pats p root = Ok a ->
  exists files,
    header a = dir_node files /\
    py_getitem (header a) k_files = Ok (JDict files) /\
    is_tree_files (JDict files) = true.
Proof.
  intros Hc. apply compress_inv in Hc.
  destruct Hc as (hdr & b & tb & record & Hd & _ & _ & ->). cbn [header].
  pose proof (_path_to_dict_is_tree _ _ _ _ _ _ _ Hd) as Ht.
  destruct (_path_to_dict_dir_node _ _ _ _ _ _ _ Hd) as (files & ->).
  exists files. split; [reflexivity|]. split; [reflexivity|].
  rewrite <- dir_node_is_tree. exact Ht.
Qed.

(** ** Limits of the round trip *)

(** A high surrogate directly before a low one is read back as one code
    point. *)
Example split_pair_read_as_one :
  loads (dumps (JStr [55296%N; 56320%N])) = Ok (JStr [65536%N]).
Proof. reflexivity. Qed.

(** A description too long for the 32-bit fields is not written. *)
Lemma encode_tree_too_large (hdr : json) :
  2 ^ 32 <= align4 (Z.of_nat (length (dumps hdr))) + 8 ->
  encode_tree hdr = Raise StructError.
Proof.
  intros Hsize. unfold encode_tree.
  rewrite (utf8_encode_ascii _ (dumps_ascii hdr)). cbn [bind].
  rewrite length_map, round_up_4_align4.
  unfold pack_4I.
  assert (Hu : u32_ok (align4 (Z.of_nat (length (dumps hdr))) + 8) = false).
  { unfold u32_ok. apply andb_false_iff. right. apply Z.ltb_ge. exact Hsize. }
  rewrite Hu. cbn [u32_ok andb]. rewrite andb_false_r. reflexivity.
Qed.

(** * Further properties *)
(** ** [round_up] on powers of two *)

Lemma round_up_div (i k : Z) :
  0 <= k -> round_up i (2 ^ k) = (i + 2 ^ k - 1) / 2 ^ k * 2 ^ k.
Proof.
  intros Hk. unfold round_up.
  replace (2 ^ k - 1) with (Z.ones k) by (rewrite Z.ones_equiv; lia).
  rewrite <- Z.ldiff_land, Z.ldiff_ones_r by exact Hk.
  rewrite Z.shiftr_div_pow2, Z.shiftl_mul_pow2 by exact Hk.
  reflexivity.
Qed.

(** X1. For a power of two [m], [round_up i m] is the least multiple of [m]
    that is not below [i], for every integer [i], negative ones included. *)
Theorem X1_round_up_least_multiple (i k : Z) :
  0 <= k ->
  let m := 2 ^ k in
  round_up i m mod m = 0 /\
  i <= round_up i m < i + m /\
  forall x, x mod m = 0 -> i <= x -> round_up i m <= x.
Proof.
  intros Hk m. assert (Hm : 0 < m) by (apply Z.pow_pos_nonneg; lia).
  unfold m in *. rewrite round_up_div by exact Hk.
  set (q := (i + 2 ^ k - 1) / 2 ^ k).
  pose proof (Z.div_mod (i + 2 ^ k - 1) (2 ^ k) ltac:(lia)) as Hdm.
  pose proof (Z.mod_pos_bound (i + 2 ^ k - 1) (2 ^ k) Hm) as Hb.
  fold q in Hdm.
  split; [apply Z.mod_mul; lia|]. split; [nia|].
  intros x Hx Hix.
  apply Z.mod_divide in Hx; [|lia]. destruct Hx as [y ->].
  assert (q <= y); [|nia].
  destruct (Z.le_gt_cases q y) as [|Hgt]; [assumption|]. nia.
Qed.

Lemma X1_round_up_least_multiple_witness :
  0 <= 2 /\
  round_up (-5) (2 ^ 2) mod 2 ^ 2 = 0 /\
  -5 <= round_up (-5) (2 ^ 2) < -5 + 2 ^ 2.
Proof.
  split; [lia|].
  destruct (X1_round_up_least_multiple (-5) 2 ltac:(lia)) as (H1 & H2 & _).
  split; [exact H1 | exact H2].
Defined.

(** ** [Asar.open] *)

Lemma lor_bound (a b n : Z) :
  0 <= n -> 0 <= a < 2 ^ n -> 0 <= b < 2 ^ n -> 0 <= Z.lor a b < 2 ^ n.
Proof.
  intros Hn Ha Hb. split; [apply Z.lor_nonneg; lia|].
  destruct (Z.eq_dec (Z.lor a b) 0) as [->|Hnz].
  - apply Z.pow_pos_nonneg; lia.
  - assert (Hn0 : 0 < n).
    { destruct (Z.eq_dec n 0) as [->|]; [|lia].
      assert (a = 0) as -> by (change (2 ^ 0) with 1 in Ha; lia).
      assert (b = 0) as -> by (change (2 ^ 0) with 1 in Hb; lia).
      contradiction. }
    assert (Hpos : 0 < Z.lor a b).
    { pose proof (proj2 (Z.lor_nonneg a b) (conj (proj1 Ha) (proj1 Hb))). lia. }
    apply Z.log2_lt_pow2; [exact Hpos|].
    rewrite Z.log2_lor by lia.
    apply Z.max_lub_lt.
    + destruct (Z.eq_dec a 0) as [->|]; [simpl; lia|].
      apply Z.log2_lt_pow2; lia.
    + destruct (Z.eq_dec b 0) as [->|]; [simpl; lia|].
      apply Z.log2_lt_pow2; lia.
Qed.

Lemma shiftl_byte_bound (b : byte) (s : Z) :
  0 <= s <= 24 -> 0 <= Z.shiftl (Z_of_byte b) s < 2 ^ 32.
Proof.
  intros Hs. pose proof (Byte.to_N_bounded b) as Hb.
  unfold Z_of_byte. rewrite Z.shiftl_mul_pow2 by lia.
  assert (Hp : 0 < 2 ^ s <= 2 ^ 24).
  { split; [apply Z.pow_pos_nonneg; lia | apply Z.pow_le_mono_r; lia]. }
  change (2 ^ 24) with 16777216 in Hp. change (2 ^ 32) with 4294967296.
  nia.
Qed.

Lemma of_le32_range (b0 b1 b2 b3 : byte) :
  0 <= of_le32 b0 b1 b2 b3 < 2 ^ 32.
Proof.
  unfold of_le32.
  pose proof (shiftl_byte_bound b0 0 ltac:(lia)) as H0.
  rewrite Z.shiftl_0_r in H0.
  pose proof (shiftl_byte_bound b1 8 ltac:(lia)).
  pose proof (shiftl_byte_bound b2 16 ltac:(lia)).
  pose proof (shiftl_byte_bound b3 24 ltac:(lia)).
  repeat apply lor_bound; lia.
Qed.

Lemma unpack_4I_range (buf : bytes) (a b c d : Z) :
  unpack_4I buf = Ok (a, b, c, d) ->
  length buf = 16%nat /\ 0 <= d < 2 ^ 32.
Proof.
  unfold unpack_4I.
  do 16 (destruct buf as [|? buf]; [discriminate|]).
  destruct buf; [|discriminate].
  intros [= <- <- <- <-]. split; [reflexivity | apply of_le32_range].
Qed.

Lemma asar_open_inv (p : str) (content : result bytes) (a : Asar) :
  asar_open p content = Ok a ->
  exists file f1 f2 f3 header_string_size text,
    content = Ok file /\
    unpack_4I (firstn 16 file) = Ok (f1, f2, f3, header_string_size) /\
    utf8_decode (firstn (Z.to_nat header_string_size) (skipn 16 file)) = Ok text /\
    loads text = Ok (header a) /\
    a = mkAsar p (mkStream file false) (header a)
          (round_up (16 + header_string_size) 4).
Proof.
  unfold asar_open, asar_open_body. intros Ho.
  destruct content as [file|e]; cbn [bind] in Ho; [|discriminate].
  destruct (unpack_4I (firstn 16 file)) as [[[[f1 f2] f3] hss]|e] eqn:Eu;
    cbn [bind] in Ho; [|discriminate].
  destruct (utf8_decode _) as [text|e] eqn:Ed; cbn [bind] in Ho; [|discriminate].
  destruct (loads text) as [hdr|e] eqn:El; cbn [bind] in Ho; [|discriminate].
  injection Ho as <-. cbn [header].
  exists file, f1, f2, f3, hss, text. repeat split; assumption.
Qed.

(** X2. Every archive that [open] returns has a base offset that is a
    multiple of 4, lies at or after the 16-byte record and within 3 bytes
    after the end of the tree description whose length is the fourth field
    of the record; the file is at least 16 bytes long. *)
Theorem X2_open_base_offset_aligned (p : str) (file : bytes) (a : Asar) :
  asar_open p (Ok file) = Ok a ->
  exists f1 f2 f3 header_string_size,
    unpack_4I (firstn 16 file) = Ok (f1, f2, f3, header_string_size) /\
    0 <= header_string_size < 2 ^ 32 /\
    base_offset a mod 4 = 0 /\
    16 + header_string_size <= base_offset a < 16 + header_string_size + 4 /\
    (16 <= length file)%nat /\
    data (fp a) = file.
Proof.
  intros Ho. apply asar_open_inv in Ho.
  destruct Ho as (file' & f1 & f2 & f3 & hss & text & [= <-] & Hu & _ & _ & ->).
  cbn [base_offset fp data].
  destruct (unpack_4I_range _ _ _ _ _ Hu) as [Hlen Hr].
  exists f1, f2, f3, hss. rewrite round_up_4_align4.
  split; [exact Hu|]. split; [exact Hr|].
  split; [apply align4_mod|]. split; [apply align4_bounds|].
  split; [|reflexivity].
  rewrite length_firstn in Hlen. lia.
Qed.

Lemma X2_open_base_offset_aligned_witness :
  exists encoded a,
    encode_tree (dir_node []) = Ok encoded /\
    asar_open (lit "app.asar") (Ok encoded) = Ok a /\
    base_offset a mod 4 = 0 /\ (16 <= length encoded)%nat.
Proof.
  assert (H : exists encoded a,
    encode_tree (dir_node []) = Ok encoded /\
    asar_open (lit "app.asar") (Ok encoded) = Ok a).
  { eexists. eexists. split; vm_compute; reflexivity. }
  destruct H as (encoded & a & He & Ho).
  destruct (X2_open_base_offset_aligned _ _ _ Ho)
    as (f1 & f2 & f3 & hss & _ & _ & Hm & _ & Hl & _).
  exists encoded, a. repeat split; assumption.
Defined.



(** X4. [open] fails with its own exception when the file cannot be read
    or holds fewer than the 16 bytes of the record, the empty file
    included. *)
Theorem X4_open_short_file (p : str) (content : result bytes) :
  match content with
  | Ok file => (length file < 16)%nat
  | Raise _ => True
  end ->
  asar_open p content = Raise OpenFailed.
Proof.
  destruct content as [file|e]; [|reflexivity].
  intros Hlen. unfold asar_open, asar_open_body. cbn [bind].
  rewrite firstn_all2 by lia.
  do 16 (destruct file as [|? file]; [reflexivity|]).
  cbn [length] in Hlen. lia.
Qed.

Lemma X4_open_short_file_witness :
  (length (@nil byte) < 16)%nat /\
  asar_open (lit "app.asar") (Ok []) = Raise OpenFailed.
Proof.
  split; [cbn; lia|].
  apply (X4_open_short_file (lit "app.asar") (Ok [])). cbn. lia.
Defined.

(** ** The archive that [compress] lays out *)

Lemma encode_tree_length (hdr : json) (encoded : bytes) :
  encode_tree hdr = Ok encoded ->
  Z.of_nat (length encoded) = align4 (16 + Z.of_nat (length (dumps hdr))).
Proof.
  intros He. apply encode_tree_inv in He.
  destruct He as (tb & record & Hu & Hp & ->). cbv zeta in Hp.
  rewrite (utf8_encode_ascii _ (dumps_ascii hdr)) in Hu. injection Hu as <-.
  rewrite length_map in *. rewrite pad_header_app.
  rewrite !length_app, length_map, repeat_length, (pack_4I_length _ _ _ _ _ Hp).
  rewrite round_up_4_align4, align4_16.
  pose proof (align4_bounds (Z.of_nat (length (dumps hdr)))). lia.
Qed.

Lemma compress_layout realpath read_file pats p root a :
  compress realpath read_file pats p root = Ok a ->
  exists encoded b,
    _path_to_dict realpath pats p root (mkBuilder 0 []) = Ok (header a, b) /\
    encode_tree (header a) = Ok encoded /\
    data (fp a) = encoded ++ _paths_to_bytes read_file (paths b) /\
    base_offset a = Z.of_nat (length encoded).
Proof.
  intros Hc.
  destruct (compress_encode_tree _ _ _ _ _ _ Hc) as (encoded & b & Hd & He & Hdata).
  exists encoded, b. repeat split; try assumption.
  rewrite (encode_tree_length _ _ He). apply compress_inv in Hc.
  destruct Hc as (hdr & b' & tb & record & _ & Hu & _ & ->).
  cbn [header base_offset].
  rewrite (utf8_encode_ascii _ (dumps_ascii hdr)) in Hu. injection Hu as <-.
  rewrite length_map, round_up_4_align4. reflexivity.
Qed.

(** X5. In the archive that [compress] builds, the record and the padded
    tree description take exactly [base_offset] bytes, a multiple of 4, and
    the payload - the contents of the listed files, in list order - starts
    right there. *)
Theorem X5_payload_starts_at_base_offset realpath read_file pats p root a :
  compress realpath read_file pats p root = Ok a ->
  exists b,
    _path_to_dict realpath pats p root (mkBuilder 0 []) = Ok (header a, b) /\
    0 <= base_offset a /\ base_offset a mod 4 = 0 /\
    Z.of_nat (length (firstn (Z.to_nat (base_offset a)) (data (fp a))))
      = base_offset a /\
    skipn (Z.to_nat (base_offset a)) (data (fp a))
      = _paths_to_bytes read_file (paths b).
Proof.
  intros Hc.
  destruct (compress_layout _ _ _ _ _ _ Hc) as (encoded & b & Hd & He & Hdata & Hb).
  pose proof (encode_tree_length _ _ He) as Hlen.
  exists b. split; [exact Hd|]. split; [lia|].
  split; [rewrite Hb, Hlen; apply align4_mod|].
  rewrite Hb, Nat2Z.id, Hdata. split.
  - rewrite firstn_app, Nat.sub_diag, firstn_all. cbn [firstn].
    rewrite app_nil_r. reflexivity.
  - rewrite skipn_app, Nat.sub_diag, skipn_all. reflexivity.
Qed.

Lemma X5_payload_starts_at_base_offset_witness :
  exists a,
    compress no_links sample_hiyo_read [] (lit "src") sample_hiyo = Ok a /\
    base_offset a mod 4 = 0 /\
    skipn (Z.to_nat (base_offset a)) (data (fp a)) = bytes_of_string "hiyo".
Proof.
  assert (Hc : exists a,
    compress no_links sample_hiyo_read [] (lit "src") sample_hiyo = Ok a).
  { eexists. vm_compute. reflexivity. }
  destruct Hc as (a & Hc).
  destruct (X5_payload_starts_at_base_offset _ _ _ _ _ _ Hc)
    as (b & Hd & _ & Hm & _ & Hs).
  exists a. split; [exact Hc|]. split; [exact Hm|].
  rewrite Hs.
  assert (Hp : exists h,
            _path_to_dict no_links [] (lit "src") sample_hiyo (mkBuilder 0 [])
               = Ok (h, mkBuilder 4 [lit "src/a.txt"; lit "src/sub/b.txt"])).
  { eexists. vm_compute. reflexivity. }
  destruct Hp as (h & Hp).
  rewrite Hp in Hd. injection Hd as _ <-. vm_compute. reflexivity.
Defined.

(** *** The shapes of the nodes *)

Lemma dict_set_NoDup (d : dict) (k : str) (v : json) :
  NoDup (keys d) -> NoDup (keys (dict_set d k v)).
Proof.
  induction d as [|[k0 v0] d IH]; intros Hnd; cbn [dict_set].
  - cbn. constructor; [intros [] | constructor].
  - cbn [keys List.map fst] in Hnd. inversion Hnd as [|? ? Hk Hnd']; subst.
    destruct (str_eqb k0 k) eqn:E.
    + cbn [keys List.map fst]. constructor; assumption.
    + cbn [keys List.map fst]. constructor; [|apply IH; exact Hnd'].
      intros Hin. apply (dict_set_keys d k v k0) in Hin.
      destruct Hin as [Hin|Heq]; [exact (Hk Hin)|].
      apply str_eqb_neq in E. congruence.
Qed.

Lemma dict_set_Forall (P : json -> Prop) (d : dict) (k : str) (v : json) :
  Forall (fun kv => P (snd kv)) d -> P v ->
  Forall (fun kv => P (snd kv)) (dict_set d k v).
Proof.
  induction d as [|[k0 v0] d IH]; intros Hd Hv; cbn [dict_set].
  - constructor; [exact Hv | constructor].
  - inversion Hd as [|? ? H0 Hd']; subst.
    destruct (str_eqb k0 k); constructor; try assumption.
    apply IH; assumption.
Qed.

Lemma scan_loop_packer_tree realpath pats (es : list dirent) :
  Forall (fun e => match e with
                   | EDir _ _ sub => builds_packer_tree realpath pats sub
                   | EOther _ _ _ => True
                   end) es ->
  forall dir_path files b files' b',
    0 <= offset b ->
    Forall (fun kv => packer_tree (snd kv)) files -> NoDup (keys files) ->
    scan_loop realpath pats dir_path es files b = Ok (files', b') ->
    Forall (fun kv => packer_tree (snd kv)) files' /\ NoDup (keys files') /\
    offset b <= offset b'.
Proof.
  induction 1 as [|f es Hf Hes IH]; intros dir_path files b files' b' Hb Ht Hnd Hl.
  - injection Hl as <- <-. repeat split; try assumption. lia.
  - cbn [scan_loop] in Hl. cbv zeta in Hl.
    assert (Hstep : forall v b1,
      packer_tree v -> offset b <= offset b1 ->
      scan_loop realpath pats dir_path es (dict_set files (entry_name f) v) b1
        = Ok (files', b') ->
      Forall (fun kv => packer_tree (snd kv)) files' /\ NoDup (keys files') /\
      offset b <= offset b').
    { intros v b1 Hv Hle Hl1.
      destruct (IH dir_path (dict_set files (entry_name f) v) b1 files' b')
        as (H1 & H2 & H3); try assumption; try lia.
      - apply dict_set_Forall; assumption.
      - apply dict_set_NoDup; assumption.
      - repeat split; try assumption. lia. }
    destruct (should_exclude pats _); [exact (IH _ _ _ _ _ Hb Ht Hnd Hl)|].
    destruct f as [name l sub|name [|] st].
    + destruct (_path_to_dict realpath pats _ sub b) as [[d b1]|e] eqn:Ed;
        cbn [bind] in Hl; [|discriminate].
      destruct (Hf _ _ _ _ Hb Ed) as [Hd Hle].
      exact (Hstep d b1 Hd Hle Hl).
    + apply (Hstep (link_node (realpath name)) b); [constructor | lia | exact Hl].
    + destruct st as [sz| |]; [| |discriminate].
      * apply (Hstep (file_node (Z.of_N sz) (str_of_Z (offset b)))
                 (mkBuilder (offset b + Z.of_N sz) (paths b ++ [os_path_join dir_path name])));
          [constructor; lia | cbn [offset]; lia | exact Hl].
      * injection Hl as <- <-. cbn [offset]. repeat split; try assumption. lia.
Qed.

Lemma _path_to_dict_packer_tree realpath pats (sc : scan) :
  builds_packer_tree realpath pats sc.
Proof.
  apply (scan_nested_ind
           (builds_packer_tree realpath pats)
           (fun e => match e with
                     | EDir _ _ sub => builds_packer_tree realpath pats sub
                     | EOther _ _ _ => True
                     end)).
  - intros entries HQ dir_path b node b' Hb Hd.
    rewrite _path_to_dict_ScanOk in Hd.
    destruct (scan_loop realpath pats dir_path entries [] b)
      as [[files b1]|e] eqn:El; cbn [bind] in Hd; [|discriminate].
    injection Hd as <- <-. cbn [fst snd].
    destruct (scan_loop_packer_tree _ _ _ HQ dir_path [] b files b1 Hb
                (Forall_nil _) (NoDup_nil _) El) as (H1 & H2 & H3).
    split; [constructor; assumption | exact H3].
  - intros dir_path b node b' Hb Hd. injection Hd as <- <-.
    split; [constructor; constructor | lia].
  - intros dir_path b node b' Hb Hd. discriminate.
  - intros name l sub IH. exact IH.
  - intros; exact I.
Qed.

(** X6. The tree that [compress] returns is made of three shapes of node
    only: directories with distinct names, links, and files that carry a
    size and the decimal text of an offset, neither negative.  The packer
    never writes a file node without an offset. *)
Theorem X6_compress_builds_packer_tree realpath read_file pats p root a :
  compress realpath read_file pats p root = Ok a ->
  packer_tree (header a) /\ exists files, header a = dir_node files.
Proof.
  intros Hc. apply compress_inv in Hc.
  destruct Hc as (hdr & b & tb & record & Hd & _ & _ & ->). cbn [header].
  split.
  - exact (proj1 (_path_to_dict_packer_tree _ _ _ _ (mkBuilder 0 []) _ _ (Z.le_refl 0) Hd)).
  - exact (_path_to_dict_dir_node _ _ _ _ _ _ _ Hd).
Qed.

Lemma X6_compress_builds_packer_tree_witness :
  exists a,
    compress sample_realpath sample_link_read [] (lit "/src") sample_link = Ok a /\
    packer_tree (header a).
Proof.
  assert (Hc : exists a,
    compress sample_realpath sample_link_read [] (lit "/src") sample_link = Ok a).
  { eexists. vm_compute. reflexivity. }
  destruct Hc as (a & Hc). exists a. split; [exact Hc|].
  exact (proj1 (X6_compress_builds_packer_tree _ _ _ _ _ _ Hc)).
Defined.

(** *** Exclusion *)

Lemma scan_loop_lists_included realpath pats (es : list dirent) :
  Forall (fun e => match e with
                   | EDir _ _ sub => lists_included realpath pats sub
                   | EOther _ _ _ => True
                   end) es ->
  forall dir_path files b files' b',
    scan_loop realpath pats dir_path es files b = Ok (files', b') ->
    exists added,
      paths b' = paths b ++ added /\
      Forall (fun q => should_exclude pats q = false) added.
Proof.
  induction 1 as [|f es Hf Hes IH]; intros dir_path files b files' b' Hl.
  - injection Hl as <- <-. exists []. rewrite app_nil_r. split; [reflexivity|constructor].
  - cbn [scan_loop] in Hl. cbv zeta in Hl.
    destruct (should_exclude pats (os_path_join dir_path (entry_name f))) eqn:Hex;
      [exact (IH _ _ _ _ _ Hl)|].
    destruct f as [name l sub|name [|] st].
    + destruct (_path_to_dict realpath pats _ sub b) as [[d b1]|e] eqn:Ed;
        cbn [bind] in Hl; [|discriminate].
      destruct (Hf _ _ _ _ Ed) as (a1 & E1 & F1).
      destruct (IH _ _ _ _ _ Hl) as (a2 & E2 & F2).
      exists (a1 ++ a2). rewrite E2, E1, app_assoc. split; [reflexivity|].
      apply Forall_app. split; assumption.
    + exact (IH _ _ _ _ _ Hl).
    + destruct st as [sz| |]; [| |discriminate].
      * destruct (IH _ _ _ _ _ Hl) as (a2 & E2 & F2). cbn [paths] in E2.
        exists (os_path_join dir_path name :: a2).
        rewrite E2, <- app_assoc. split; [reflexivity|].
        constructor; assumption.
      * injection Hl as <- <-. cbn [paths].
        exists [os_path_join dir_path name]. split; [reflexivity|].
        constructor; [exact Hex | constructor].
Qed.

Lemma _path_to_dict_lists_included realpath pats (sc : scan) :
  lists_included realpath pats sc.
Proof.
  apply (scan_nested_ind
           (lists_included realpath pats)
           (fun e => match e with
                     | EDir _ _ sub => lists_included realpath pats sub
                     | EOther _ _ _ => True
                     end)).
  - intros entries HQ dir_path b node b' Hd.
    rewrite _path_to_dict_ScanOk in Hd.
    destruct (scan_loop realpath pats dir_path entries [] b)
      as [[files b1]|e] eqn:El; cbn [bind] in Hd; [|discriminate].
    injection Hd as <- <-. cbn [snd].
    exact (scan_loop_lists_included _ _ _ HQ _ _ _ _ _ El).
  - intros dir_path b node b' Hd. injection Hd as <- <-.
    exists []. rewrite app_nil_r. split; [reflexivity | constructor].
  - intros dir_path b node b' Hd. discriminate.
  - intros name l sub IH. exact IH.
  - intros; exact I.
Qed.

(** X7. No file that a pattern excludes reaches the archive: every path of
    the ordered file list, whose contents make the payload, is a path in
    which no exclusion pattern occurs. *)
Theorem X7_excluded_files_not_listed realpath read_file pats p root a :
  compress realpath read_file pats p root = Ok a ->
  exists file_paths,
    skipn (Z.to_nat (base_offset a)) (data (fp a))
      = _paths_to_bytes read_file file_paths /\
    Forall (fun q => forall pattern, In pattern pats ->
                       str_contains q pattern = false) file_paths.
Proof.
  intros Hc.
  destruct (compress_layout _ _ _ _ _ _ Hc) as (encoded & b & Hd & _ & Hdata & Hb).
  exists (paths b). split.
  { rewrite Hb, Nat2Z.id, Hdata, skipn_app, Nat.sub_diag, skipn_all. reflexivity. }
  destruct (_path_to_dict_lists_included _ _ _ _ _ _ _ Hd) as (added & E & F).
  cbn [paths app] in E. rewrite E.
  apply (Forall_impl _ (P := fun q => should_exclude pats q = false)); [|exact F].
  intros q Hq pattern Hin. unfold should_exclude in Hq.
  destruct (str_contains q pattern) eqn:Es; [|reflexivity].
  assert (existsb (fun pat => str_contains q pat) pats = true).
  { apply existsb_exists. exists pattern. split; assumption. }
  congruence.
Qed.

Lemma X7_excluded_files_not_listed_witness :
  exists a,
    compress no_links sample_hiyo_read [lit "sub"] (lit "src") sample_hiyo = Ok a /\
    exists file_paths,
      skipn (Z.to_nat (base_offset a)) (data (fp a))
        = _paths_to_bytes sample_hiyo_read file_paths /\
      Forall (fun q => forall pattern, In pattern [lit "sub"] ->
                         str_contains q pattern = false) file_paths.
Proof.
  assert (Hc : exists a,
    compress no_links sample_hiyo_read [lit "sub"] (lit "src") sample_hiyo = Ok a).
  { eexists. vm_compute. reflexivity. }
  destruct Hc as (a & Hc).
  exists a. split; [exact Hc|].
  exact (X7_excluded_files_not_listed _ _ _ _ _ _ Hc).
Defined.

(** *** A pattern that is the empty string *)

Lemma str_contains_nil (s : str) : str_contains s [] = true.
Proof. destruct s; reflexivity. Qed.

Lemma scan_loop_all_excluded realpath pats dir_path (es : list dirent) :
  (forall q, should_exclude pats q = true) ->
  forall files b, scan_loop realpath pats dir_path es files b = Ok (files, b).
Proof.
  intros Hex. induction es as [|f es IH]; intros files b; [reflexivity|].
  cbn [scan_loop]. cbv zeta. rewrite Hex. apply IH.
Qed.

(** X8. An exclusion pattern that is the empty string occurs in every path:
    with such a pattern among [exclude_patterns], [compress] of a directory
    that can be listed gives an archive whose tree has no entry and whose
    payload is empty, whatever the directory holds. *)
Theorem X8_empty_pattern_excludes_everything realpath read_file pats p entries :
  In [] pats ->
  exists a,
    compress realpath read_file pats p (ScanOk entries) = Ok a /\
    header a = dir_node [] /\
    base_offset a = 28 /\
    skipn (Z.to_nat (base_offset a)) (data (fp a)) = [].
Proof.
  intros Hin.
  assert (Hex : forall q, should_exclude pats q = true).
  { intros q. unfold should_exclude. apply existsb_exists.
    exists []. split; [exact Hin | apply str_contains_nil]. }
  assert (Hd : _path_to_dict realpath pats p (ScanOk entries) (mkBuilder 0 [])
               = Ok (dir_node [], mkBuilder 0 [])).
  { rewrite _path_to_dict_ScanOk, (scan_loop_all_excluded _ _ _ _ Hex). reflexivity. }
  unfold compress. rewrite Hd. cbn [bind].
  eexists. split; [vm_compute; reflexivity|].
  split; [reflexivity|]. split; reflexivity.
Qed.

Lemma X8_empty_pattern_excludes_everything_witness :
  exists a,
    compress no_links sample_hiyo_read [lit "node_modules"; []] (lit "src")
      sample_hiyo = Ok a /\
    header a = dir_node [] /\
    base_offset a = 28 /\
    skipn (Z.to_nat (base_offset a)) (data (fp a)) = [].
Proof.
  apply (X8_empty_pattern_excludes_everything no_links sample_hiyo_read
           [lit "node_modules"; []] (lit "src")).
  right. left. reflexivity.
Defined.

(** ** Reading one file *)
















(** ** Packing a directory and reading a file back *)








Lemma file_at_head pats dir_path f es parts q size :
  file_at pats dir_path (ScanOk [f]) parts q size ->
  file_at pats dir_path (ScanOk (f :: es)) parts q size.
Proof.
  intros Hf. inversion Hf as [? ? ? ? Hin Hex|? ? ? ? ? ? ? ? ? Hin Hex Hr]; subst.
  - destruct Hin as [->|[]]. apply file_here; [left; reflexivity | exact Hex].
  - destruct Hin as [->|[]].
    apply (file_below _ _ _ _ l sub); [left; reflexivity | exact Hex | exact Hr].
Qed.










(** ** Packing, writing the archive, opening it and reading a file *)










(** *** Lookups in a tree read back from its description *)










